(** * Knowledge-graph disambiguation: [aipipeline/knowledge_graph/kg_utilities.py]

    A shallow embedding of [DataDisambiguation.run] and of the helpers it
    calls, followed by the properties of the specification that were
    checked against it.

    Conventions.
    - A Python [str] is a [string]; labels are compared the way Python
      compares [str] values, lexicographically by character code.
    - A node or relationship dict is a record with the keys the code reads.
    - The language model, the two text-to-record converters of
      [unstructured_data_utils] and [json.dumps] are collaborators of
      [run]: they are Variables of the section [Disambiguation].  The
      language model carries a state of its own, so that two calls with the
      same messages may answer differently.
    - [run] has no exception handler: a collaborator that raises aborts the
      call.  The model covers the calls whose collaborators return.
    - [run] is embedded twice: on values ([run]), where the requests to
      the language model are the only effect, and on a store of objects
      ([run_heap]), where the lists and dicts are allocated, read and
      extended in place.  [run_heap_refines] relates the two. *)

From Stdlib Require Import List String Ascii Bool Arith Lia.
From Stdlib Require Import Sorting.Sorted Sorting.Permutation OrderedTypeEx.
From stdpp Require Import gmap.
Import ListNotations.

Local Open Scope string_scope.
Local Open Scope list_scope.

(** ** Python string literals *)

Definition dquote : ascii := "034"%char.
Definition newline : ascii := "010"%char.
Definition backtick : ascii := "096"%char.
Definition NL : string := String newline EmptyString.

(** The source's literals contain double quotes.  They are written here
    with a backtick in place of each double quote (no literal of the source
    contains a backtick) and [py] puts the double quotes back. *)
Fixpoint py (s : string) : string :=
  match s with
  | EmptyString => EmptyString
  | String c s' => String (if Ascii.eqb c backtick then dquote else c) (py s')
  end.

(** A triple-quoted literal, given line by line: every line of the list is
    followed by a newline. *)
Fixpoint text_lines (ls : list string) : string :=
  match ls with
  | [] => EmptyString
  | l :: ls' => String.append l (String.append NL (text_lines ls'))
  end.

(** The strings of a list, one after the other. *)
Definition join_strings (ls : list string) : string :=
  fold_right String.append EmptyString ls.

(** ** The prompt texts (lines 20-55) *)

Definition generate_system_message_for_nodes : string :=
  py (text_lines
    [ "Your task is to identify if there are duplicated nodes and if so merge them into one nod. Only merge the nodes that refer to the same entity."
    ; "You will be given different datasets of nodes and some of these nodes may be duplicated or refer to the same entity. "
    ; "The datasets contains nodes in the form [ENTITY_ID, TYPE, PROPERTIES]. When you have completed your task please give me the "
    ; "resulting nodes in the same format. Only return the nodes and relationships no other text. If there is no duplicated nodes return the original nodes."
    ; ""
    ; "When defining the propreties for the nodes please use wellknwon types from schema.org that match the entity TYPE."
    ; ""
    ; "Here is an example of the input you will be given:"
    ; "[`alice`, `Person`, {`age`: 25, `occupation`: `lawyer`, `name`:`Alice`}], [`bob`, `Person`, {`occupation`: `journalist`, `name`: `Bob`}], [`alice.com`, `Webpage`, {`url`: `www.alice.com`}], [`bob.com`, `Webpage`, {`url`: `www.bob.com`}]"
    ]).

Definition generate_system_message_for_relationships : string :=
  py (text_lines
    [ ""
    ; "Your task is to identify if a set of relationships make sense."
    ; "If they do not make sense please remove them from the dataset."
    ; "Some relationships may be duplicated or refer to the same entity. "
    ; "Please merge relationships that refer to the same entity."
    ; "The datasets contains relationships in the form [ENTITY_ID_1, RELATIONSHIP, ENTITY_ID_2, PROPERTIES]."
    ; "You will also be given a set of ENTITY_IDs that are valid."
    ; "Some relationships may use ENTITY_IDs that are not in the valid set but refer to a entity in the valid set."
    ; "If a relationships refer to a ENTITY_ID in the valid set please change the ID so it matches the valid ID."
    ; "When you have completed your task please give me the valid relationships in the same format. Only return the relationships no other text."
    ; ""
    ; "When defining the propreties for the relationships please use wellknwon types from schema.org that mathed the RELATIONSHIP type."
    ; ""
    ; "Here is an example of the input you will be given:"
    ; "[`alice`, `roommate`, `bob`, {`start`: 2021}], [`alice`, `owns`, `alice.com`, {}], [`bob`, `owns`, `bob.com`, {}]"
    ]).

(** The f-string of lines 53-55: the line [ Here is the data:], then
    [data], then a newline. *)
Definition generate_prompt (data : string) : string :=
  String.append " Here is the data:"
    (String.append NL (String.append data NL)).

(** ** [re.findall(internalRegex, text)] with [internalRegex = "\[(.*?)\]"]

    The pattern has one group, so [findall] returns the text of the group
    of every match, matches being taken leftmost first and not
    overlapping.  A match starts at a [[]; the lazy [.*?] then takes as few
    characters as possible up to the first []], and [.] does not match a
    newline (no flag is given), so the attempt at that [[] fails when a
    newline or the end of the text comes before a []]. *)

(** [scan_close s] is the group of a match whose [[] is followed by [s]:
    the characters before the first []], if no newline precedes it. *)
Fixpoint scan_close (s : string) : option string :=
  match s with
  | EmptyString => None
  | String c s' =>
      if Ascii.eqb c "]"%char then Some EmptyString
      else if Ascii.eqb c newline then None
      else match scan_close s' with
           | Some m => Some (String c m)
           | None => None
           end
  end.

(** [findall_from skip s]: the matches in [s], where the first [skip]
    characters belong to a match already taken and start no new one. *)
Fixpoint findall_from (skip : nat) (s : string) : list string :=
  match s with
  | EmptyString => []
  | String c s' =>
      match skip with
      | S k => findall_from k s'
      | O =>
          if Ascii.eqb c "["%char then
            match scan_close s' with
            | Some m => m :: findall_from (S (String.length m)) s'
            | None => findall_from 0 s'
            end
          else findall_from 0 s'
      end
  end.

Definition findall (text : string) : list string := findall_from 0 text.

(** [c] occurs in [s]. *)
Fixpoint mem_char (c : ascii) (s : string) : bool :=
  match s with
  | EmptyString => false
  | String d s' => Ascii.eqb d c || mem_char c s'
  end.

(** [u] matches the pattern: a [[], any characters but a newline, a []]. *)
Definition matches_internalRegex (u : string) : Prop :=
  exists m, u = String.append "[" (String.append m "]")
            /\ mem_char newline m = false.

(** [text] contains a substring that matches the pattern. *)
Definition has_match (text : string) : Prop :=
  exists pre u post,
    text = String.append pre (String.append u post)
    /\ matches_internalRegex u.

(** The same as a test: some [[] of [text] is followed by a []] with no
    newline in between. *)
Fixpoint has_match_b (text : string) : bool :=
  match text with
  | EmptyString => false
  | String c s' =>
      (Ascii.eqb c "["%char
       && match scan_close s' with Some _ => true | None => false end)
      || has_match_b s'
  end.

(** [s] holds neither a closing bracket nor a newline, the two characters
    that end the group of the pattern. *)
Definition token_safe (s : string) : bool :=
  negb (mem_char "]"%char s) && negb (mem_char newline s).

(** ** [sorted(xs, key=...)] and [itertools.groupby(xs, key)] on string keys *)

Section SortGroup.
Context {A : Type}.
Variable key : A -> string.

(** [sorted] is stable and compares keys with [<].  A stable sort has one
    possible result, which insertion sort computes: an element moves past
    the strictly smaller keys only, so equal keys keep their order. *)
Fixpoint insert_sorted (x : A) (l : list A) : list A :=
  match l with
  | [] => [x]
  | y :: l' =>
      if String.ltb (key y) (key x) then y :: insert_sorted x l'
      else x :: y :: l'
  end.

Fixpoint sorted (l : list A) : list A :=
  match l with
  | [] => []
  | x :: l' => insert_sorted x (sorted l')
  end.

(** [groupby] yields one pair (key, group) per maximal run of
    consecutive elements whose keys are equal ([==]); the key of a group
    is the key of its first element. *)
Fixpoint groupby (l : list A) : list (string * list A) :=
  match l with
  | [] => []
  | x :: l' =>
      match groupby l' with
      | (k, g) :: gs =>
          if String.eqb (key x) k then (key x, x :: g) :: gs
          else (key x, [x]) :: (k, g) :: gs
      | [] => [(key x, [x])]
      end
  end.

(** [x] is not after [y] in the order of the keys. *)
Definition le_key (x y : A) : Prop := String.leb (key x) (key y) = true.

(** [x] has the key [k]. *)
Definition same_key (k : string) (x : A) : bool := String.eqb (key x) k.
End SortGroup.

(** ** Chat messages ([llama_index.core.base.llms.types]) *)

Inductive MessageRole : Type := SYSTEM | USER.

Record ChatMessage : Type := { role : MessageRole; content : string }.

(** The two places where [run] calls [self.llm.chat]: line 104 (merging
    the nodes of a group) and line 132 (validating the relationships).
    The tag is bookkeeping of the model; the language model never sees it. *)
Inductive Purpose : Type := MergeNodes | ValidateRelationships.

Record Request : Type := { purpose : Purpose; messages : list ChatMessage }.

Definition Purpose_eqb (p q : Purpose) : bool :=
  match p, q with
  | MergeNodes, MergeNodes => true
  | ValidateRelationships, ValidateRelationships => true
  | _, _ => false
  end.

Section Disambiguation.

(** A [properties] mapping and [json.dumps] on it. *)
Variable Props : Type.
Variable json_dumps : Props -> string.

Record Node : Type :=
  { name : string; label : string; properties : Props }.

(** The key ["end"] of a relationship is the field [end_]; its
    ["properties"] is [rel_properties]. *)
Record Relationship : Type :=
  { start : string; type : string; end_ : string; rel_properties : Props }.

(** The mapping with the keys ["nodes"] and ["relationships"]. *)
Record Fragment : Type :=
  { nodes : list Node; relationships : list Relationship }.

(** The language model: [chat l msgs] is the content of the answer to
    [msgs] in state [l], and the state after the call. *)
Variable LLM : Type.
Variable chat : LLM -> list ChatMessage -> string * LLM.

(** The converters of [aipipeline.knowledge_graph.unstructured_data_utils]. *)
Variable nodesTextToListOfKnowledgeGraphNodes : list string -> list Node.
Variable relationshipTextToListOfKnowledgeGraphRelationship :
  list string -> list Relationship.

(** *** The effects of [run]: calls of the language model *)

Record World : Type := { llm : LLM; sent : list Request }.

Definition M (T : Type) : Type := World -> T * World.

Definition ret {T} (x : T) : M T := fun w => (x, w).

Definition bind {T U} (c : M T) (k : T -> M U) : M U :=
  fun w => let (x, w') := c w in k x w'.

Notation "x <- c ;; k" := (bind c (fun x => k))
  (at level 100, c at next level, right associativity).

(** [(self.llm.chat(message)).message.content] *)
Definition llm_chat (p : Purpose) (message : list ChatMessage) : M string :=
  fun w =>
    let (answer, l') := chat (llm w) message in
    (answer,
     {| llm := l';
        sent := sent w ++ [ {| purpose := p; messages := message |} ] |}).

(** *** [DataDisambiguation.run] (lines 74-136) *)

(** Lines 89-97: the text added to [disString] for one node. *)
Definition node_line (node : Node) : string :=
  String.append (py "[`")
    (String.append (name node)
      (String.append (py "`, `")
        (String.append (label node)
          (String.append (py "`, ")
            (String.append (json_dumps (properties node))
              (String.append "]" NL)))))).

(** Lines 112-122: the text added to [relationship_data] for one
    relationship. *)
Definition relationship_line (relation : Relationship) : string :=
  String.append (py "[`")
    (String.append (start relation)
      (String.append (py "`, `")
        (String.append (type relation)
          (String.append (py "`, `")
            (String.append (end_ relation)
              (String.append (py "`, ")
                (String.append (json_dumps (rel_properties relation))
                  (String.append "]" NL)))))))).

(** Lines 82-108: the body of the loop over the groups, for the group
    whose members are [nodes_in_group]; [new_nodes] is the list built so
    far and the result is the list after the iteration. *)
Definition merge_group (new_nodes nodes_in_group : list Node)
  : M (list Node) :=
  if Nat.eqb (length nodes_in_group) 1 then
    ret (new_nodes ++ nodes_in_group)
  else
    let disString :=
      fold_left (fun acc node => String.append acc (node_line node))
                nodes_in_group EmptyString in
    let message :=
      [ {| role := SYSTEM;
           content := generate_system_message_for_relationships |};
        {| role := USER; content := disString |} ] in
    rawNodes <- llm_chat MergeNodes message ;;
    let n := findall rawNodes in
    ret (new_nodes ++ nodesTextToListOfKnowledgeGraphNodes n).

(** Line 81: [for group in node_groups]. *)
Fixpoint merge_groups (node_groups : list (string * list Node))
                      (new_nodes : list Node) : M (list Node) :=
  match node_groups with
  | [] => ret new_nodes
  | group :: rest =>
      new_nodes' <- merge_group new_nodes (snd group) ;;
      merge_groups rest new_nodes'
  end.

(** Lines 110-125: [relationship_data]. *)
Definition relationship_data_of (relationships : list Relationship)
                                (new_nodes : list Node) : string :=
  let relationship_data :=
    fold_left
      (fun acc relation => String.append acc (relationship_line relation))
      relationships (String.append "Relationships:" NL) in
  let node_labels := map name new_nodes in
  String.append relationship_data
    (String.append (String.append "Valid Nodes:" NL)
                   (String.concat NL node_labels)).

Definition run (data : Fragment) : M Fragment :=
  let nodes_ := sorted label (nodes data) in
  let relationships_ := relationships data in
  let node_groups := groupby label nodes_ in
  new_nodes <- merge_groups node_groups [] ;;
  let relationship_data := relationship_data_of relationships_ new_nodes in
  let message :=
    [ {| role := SYSTEM;
         content := generate_system_message_for_relationships |};
      {| role := USER; content := generate_prompt relationship_data |} ] in
  rawRelationships <- llm_chat ValidateRelationships message ;;
  let rels := findall rawRelationships in
  let new_relationships :=
    [] ++ relationshipTextToListOfKnowledgeGraphRelationship rels in
  ret {| nodes := new_nodes; relationships := new_relationships |}.

(** *** Vocabulary of the properties *)

(** The groups [run] iterates over (lines 75 and 80). *)
Definition node_groups_of (data : Fragment) : list (string * list Node) :=
  groupby label (sorted label (nodes data)).

(** A group with more than one member. *)
Definition multi_member (group : string * list Node) : bool :=
  Nat.ltb 1 (length (snd group)).

(** The text of a group, one line per node. *)
Definition group_text (nodes_in_group : list Node) : string :=
  join_strings (map node_line nodes_in_group).

(** The text of the relationships and of the valid node names. *)
Definition relationships_text (rels : list Relationship)
                              (valid : list Node) : string :=
  String.append (String.append "Relationships:" NL)
    (String.append (join_strings (map relationship_line rels))
      (String.append (String.append "Valid Nodes:" NL)
                     (String.concat NL (map name valid)))).

Definition merge_request (nodes_in_group : list Node) : Request :=
  {| purpose := MergeNodes;
     messages :=
       [ {| role := SYSTEM;
            content := generate_system_message_for_relationships |};
         {| role := USER; content := group_text nodes_in_group |} ] |}.

Definition validation_request (rels : list Relationship)
                              (valid : list Node) : Request :=
  {| purpose := ValidateRelationships;
     messages :=
       [ {| role := SYSTEM;
            content := generate_system_message_for_relationships |};
         {| role := USER;
            content := generate_prompt (relationships_text rels valid) |} ] |}.

(** The requests of one purpose among [reqs]. *)
Definition requests_for (p : Purpose) (reqs : list Request) : list Request :=
  List.filter (fun r => Purpose_eqb (purpose r) p) reqs.

(** The requests issued between the worlds [w] and [w']. *)
Definition issued (w w' : World) : list Request :=
  skipn (length (sent w)) (sent w').

(** The state of the language model after it answered [reqs] in order. *)
Definition replay (reqs : list Request) (l : LLM) : LLM :=
  fold_left (fun l r => snd (chat l (messages r))) reqs l.

(** The answer to the validation request in a call of [run] on [data]. *)
Definition rawRelationships_of (data : Fragment) (w : World) : string :=
  let merged := merge_groups (node_groups_of data) [] w in
  fst (chat (llm (snd merged))
            (messages (validation_request (relationships data) (fst merged)))).

(** What stands between the brackets of [node_line node]. *)
Definition node_token (node : Node) : string :=
  String.append (py "`")
    (String.append (name node)
      (String.append (py "`, `")
        (String.append (label node)
          (String.append (py "`, ") (json_dumps (properties node)))))).

(** What stands between the brackets of [relationship_line relation]. *)
Definition relationship_token (relation : Relationship) : string :=
  String.append (py "`")
    (String.append (start relation)
      (String.append (py "`, `")
        (String.append (type relation)
          (String.append (py "`, `")
            (String.append (end_ relation)
              (String.append (py "`, ")
                             (json_dumps (rel_properties relation)))))))).

(** No field of the record holds a closing bracket or a newline. *)
Definition node_safe (node : Node) : bool :=
  token_safe (name node) && token_safe (label node)
  && token_safe (json_dumps (properties node)).

Definition relationship_safe (relation : Relationship) : bool :=
  token_safe (start relation) && token_safe (type relation)
  && token_safe (end_ relation)
  && token_safe (json_dumps (rel_properties relation)).

(** The label of [node] is the label of no other node of [input_nodes]. *)
Definition unique_label (input_nodes : list Node) (node : Node) : bool :=
  Nat.eqb (length (List.filter (same_key label (label node)) input_nodes)) 1.

(** The content of the messages of a request that have role [r]. *)
Definition contents_of (r : MessageRole) (req : Request) : list string :=
  map content
    (List.filter
       (fun m => match role m, r with
                 | SYSTEM, SYSTEM | USER, USER => true
                 | _, _ => false
                 end)
       (messages req)).

End Disambiguation.

Arguments Build_Node {Props} _ _ _.
Arguments name {Props} _.
Arguments label {Props} _.
Arguments properties {Props} _.
Arguments Build_Relationship {Props} _ _ _ _.
Arguments start {Props} _.
Arguments type {Props} _.
Arguments end_ {Props} _.
Arguments rel_properties {Props} _.
Arguments Build_Fragment {Props} _ _.
Arguments nodes {Props} _.
Arguments relationships {Props} _.
Arguments Build_World {LLM} _ _.
Arguments llm {LLM} _.
Arguments sent {LLM} _.
Arguments ret {LLM T} _ _.
Arguments bind {LLM T U} _ _ _.
Arguments llm_chat {LLM} chat p message _.
Arguments node_line {Props} json_dumps node.
Arguments relationship_line {Props} json_dumps relation.
Arguments merge_group {Props} json_dumps {LLM} chat
  nodesTextToListOfKnowledgeGraphNodes new_nodes nodes_in_group _.
Arguments merge_groups {Props} json_dumps {LLM} chat
  nodesTextToListOfKnowledgeGraphNodes node_groups new_nodes _.
Arguments relationship_data_of {Props} json_dumps relationships new_nodes.
Arguments run {Props} json_dumps {LLM} chat
  nodesTextToListOfKnowledgeGraphNodes
  relationshipTextToListOfKnowledgeGraphRelationship data _.
Arguments node_groups_of {Props} data.
Arguments multi_member {Props} group.
Arguments group_text {Props} json_dumps nodes_in_group.
Arguments relationships_text {Props} json_dumps rels valid.
Arguments merge_request {Props} json_dumps nodes_in_group.
Arguments validation_request {Props} json_dumps rels valid.
Arguments replay {LLM} chat reqs l.
Arguments issued {LLM} w w'.
Arguments node_token {Props} json_dumps node.
Arguments relationship_token {Props} json_dumps relation.
Arguments node_safe {Props} json_dumps node.
Arguments relationship_safe {Props} json_dumps relation.
Arguments unique_label {Props} input_nodes node.
Arguments rawRelationships_of {Props} json_dumps {LLM} chat
  nodesTextToListOfKnowledgeGraphNodes data w.

(** ** [run] on a store of objects

    The embedding above takes the input by value.  Python passes
    references: [data], the two lists it holds, every node and relationship
    dict and every [properties] mapping are objects that [run] could
    change in place.  [run_heap] is [run] again, with the objects in a
    store and every allocation, read and write written out. *)

Definition loc : Type := positive.

Section Store.
Variable Props : Type.
Variable json_dumps : Props -> string.
Variable LLM : Type.
Variable chat : LLM -> list ChatMessage -> string * LLM.
Variable nodesTextToListOfKnowledgeGraphNodes : list string -> list (Node Props).
Variable relationshipTextToListOfKnowledgeGraphRelationship :
  list string -> list (Relationship Props).

(** The objects: a node dict, a relationship dict, a [properties]
    mapping, a list, and the mapping with the keys ["nodes"] and
    ["relationships"].  A field that holds an object holds its location;
    a [str] is immutable and is held by value. *)
Inductive obj : Type :=
  | ONode (o_name o_label : string) (o_properties : loc)
  | ORelationship (o_start o_type o_end : string) (o_properties : loc)
  | OProps (p : Props)
  | OList (items : list loc)
  | OData (o_nodes o_relationships : loc).

Record HWorld : Type := { heap : gmap loc obj; world : World LLM }.

(** A computation on the store.  [None]: the code raises, an object is not
    of the kind the code expects. *)
Definition H (T : Type) : Type := HWorld -> option (T * HWorld).

Definition hret {T} (x : T) : H T := fun hw => Some (x, hw).

Definition hfail {T} : H T := fun _ => None.

Definition hbind {T U} (c : H T) (k : T -> H U) : H U :=
  fun hw => match c hw with
            | Some (x, hw') => k x hw'
            | None => None
            end.

Notation "x <- c ;; k" := (hbind c (fun x => k))
  (at level 100, c at next level, right associativity).

(** A new object, at a location not in use. *)
Definition alloc (o : obj) : H loc :=
  fun hw =>
    let l := fresh (dom (heap hw)) in
    Some (l, {| heap := <[l := o]> (heap hw); world := world hw |}).

Definition load (l : loc) : H obj :=
  fun hw => match heap hw !! l with
            | Some o => Some (o, hw)
            | None => None
            end.

Definition store (l : loc) (o : obj) : H unit :=
  fun hw => Some (tt, {| heap := <[l := o]> (heap hw); world := world hw |}).

Definition get_list (l : loc) : H (list loc) :=
  o <- load l ;;
  match o with OList items => hret items | _ => hfail end.

Definition get_data (l : loc) : H (loc * loc) :=
  o <- load l ;;
  match o with OData ns rs => hret (ns, rs) | _ => hfail end.

Definition get_props (l : loc) : H Props :=
  o <- load l ;;
  match o with OProps p => hret p | _ => hfail end.

(** The node dict at [l], with its [properties] read. *)
Definition get_node (l : loc) : H (Node Props) :=
  o <- load l ;;
  match o with
  | ONode n lb pl =>
      p <- get_props pl ;;
      hret {| name := n; label := lb; properties := p |}
  | _ => hfail
  end.

Definition get_relationship (l : loc) : H (Relationship Props) :=
  o <- load l ;;
  match o with
  | ORelationship s t e pl =>
      p <- get_props pl ;;
      hret {| start := s; type := t; end_ := e; rel_properties := p |}
  | _ => hfail
  end.

(** [xs.extend(more)]: the list object at [l] is changed in place. *)
Definition list_extend (l : loc) (more : list loc) : H unit :=
  items <- get_list l ;;
  store l (OList (items ++ more)).

Fixpoint hmap {X Y} (f : X -> H Y) (xs : list X) : H (list Y) :=
  match xs with
  | [] => hret []
  | x :: xs' => y <- f x ;; ys <- hmap f xs' ;; hret (y :: ys)
  end.

Fixpoint hiter {X} (f : X -> H unit) (xs : list X) : H unit :=
  match xs with
  | [] => hret tt
  | x :: xs' => _ <- f x ;; hiter f xs'
  end.

Definition hchat (p : Purpose) (message : list ChatMessage) : H string :=
  fun hw =>
    let (answer, w') := llm_chat chat p message (world hw) in
    Some (answer, {| heap := heap hw; world := w' |}).

(** The records a converter returns are new objects, in a new list. *)
Definition new_node (n : Node Props) : H loc :=
  pl <- alloc (OProps (properties n)) ;;
  alloc (ONode (name n) (label n) pl).

Definition new_relationship (r : Relationship Props) : H loc :=
  pl <- alloc (OProps (rel_properties r)) ;;
  alloc (ORelationship (start r) (type r) (end_ r) pl).

Definition new_list {X} (make : X -> H loc) (xs : list X) : H loc :=
  items <- hmap make xs ;;
  alloc (OList items).

(** The key function [lambda x: x["label"]] on the object at [l]. *)
Definition label_key (l : loc) : H (loc * string) :=
  o <- load l ;;
  match o with
  | ONode _ lb _ => hret (l, lb)
  | _ => hfail
  end.

(** Lines 82-108, for the group whose members are at [group]; [new_nodes]
    is the location of the list being built. *)
Definition merge_group_heap (new_nodes : loc) (group : list loc) : H unit :=
  nodes_in_group <- alloc (OList group) ;;
  members <- get_list nodes_in_group ;;
  if Nat.eqb (length members) 1 then
    list_extend new_nodes members
  else
    lines <- hmap (fun l => node <- get_node l ;;
                            hret (node_line json_dumps node)) members ;;
    let disString := fold_left String.append lines EmptyString in
    let message :=
      [ {| role := SYSTEM;
           content := generate_system_message_for_relationships |};
        {| role := USER; content := disString |} ] in
    rawNodes <- hchat MergeNodes message ;;
    let n := findall rawNodes in
    converted <- new_list new_node (nodesTextToListOfKnowledgeGraphNodes n) ;;
    more <- get_list converted ;;
    list_extend new_nodes more.

(** Lines 74-136; [data] is the location of the input mapping and the
    result is the location of the mapping returned. *)
Definition run_heap (data : loc) : H loc :=
  d <- get_data data ;;
  input_nodes <- get_list (fst d) ;;
  keyed <- hmap label_key input_nodes ;;
  let in_order := sorted snd keyed in
  nodes_ <- alloc (OList (map fst in_order)) ;;
  let relationships_ := snd d in
  new_nodes <- alloc (OList []) ;;
  new_relationships <- alloc (OList []) ;;
  let node_groups := groupby snd in_order in
  _ <- hiter (fun group => merge_group_heap new_nodes (map fst (snd group)))
             node_groups ;;
  relations <- get_list relationships_ ;;
  lines <- hmap (fun l => relation <- get_relationship l ;;
                          hret (relationship_line json_dumps relation))
                relations ;;
  let relationship_data :=
    fold_left String.append lines (String.append "Relationships:" NL) in
  produced <- get_list new_nodes ;;
  node_labels <- hmap (fun l => node <- get_node l ;; hret (name node))
                      produced ;;
  let relationship_data :=
    String.append relationship_data
      (String.append (String.append "Valid Nodes:" NL)
                     (String.concat NL node_labels)) in
  let message :=
    [ {| role := SYSTEM;
         content := generate_system_message_for_relationships |};
      {| role := USER; content := generate_prompt relationship_data |} ] in
  rawRelationships <- hchat ValidateRelationships message ;;
  let rels := findall rawRelationships in
  converted <- new_list new_relationship
                 (relationshipTextToListOfKnowledgeGraphRelationship rels) ;;
  more <- get_list converted ;;
  _ <- list_extend new_relationships more ;;
  alloc (OData new_nodes new_relationships).

(** *** Reading a fragment back from the store *)

Fixpoint option_map_list {X Y} (f : X -> option Y) (xs : list X)
  : option (list Y) :=
  match xs with
  | [] => Some []
  | x :: xs' =>
      match f x, option_map_list f xs' with
      | Some y, Some ys => Some (y :: ys)
      | _, _ => None
      end
  end.

Definition read_node (h : gmap loc obj) (l : loc) : option (Node Props) :=
  match h !! l with
  | Some (ONode n lb pl) =>
      match h !! pl with
      | Some (OProps p) => Some {| name := n; label := lb; properties := p |}
      | _ => None
      end
  | _ => None
  end.

Definition read_relationship (h : gmap loc obj) (l : loc)
  : option (Relationship Props) :=
  match h !! l with
  | Some (ORelationship s t e pl) =>
      match h !! pl with
      | Some (OProps p) =>
          Some {| start := s; type := t; end_ := e; rel_properties := p |}
      | _ => None
      end
  | _ => None
  end.

Definition read_fragment (h : gmap loc obj) (data : loc)
  : option (Fragment Props) :=
  match h !! data with
  | Some (OData nl rl) =>
      match h !! nl, h !! rl with
      | Some (OList ns), Some (OList rs) =>
          match option_map_list (read_node h) ns,
                option_map_list (read_relationship h) rs with
          | Some ns', Some rs' =>
              Some {| nodes := ns'; relationships := rs' |}
          | _, _ => None
          end
      | _, _ => None
      end
  | _ => None
  end.

End Store.

Arguments ONode {Props} _ _ _.
Arguments ORelationship {Props} _ _ _ _.
Arguments OProps {Props} _.
Arguments OList {Props} _.
Arguments OData {Props} _ _.
Arguments Build_HWorld {Props LLM} _ _.
Arguments heap {Props LLM} _.
Arguments world {Props LLM} _.
Arguments hret {Props LLM T} x _.
Arguments hfail {Props LLM T} _.
Arguments hbind {Props LLM T U} c k _.
Arguments alloc {Props LLM} o _.
Arguments load {Props LLM} l _.
Arguments store {Props LLM} l o _.
Arguments get_list {Props LLM} l _.
Arguments get_data {Props LLM} l _.
Arguments get_props {Props LLM} l _.
Arguments get_node {Props LLM} l _.
Arguments get_relationship {Props LLM} l _.
Arguments list_extend {Props LLM} l more _.
Arguments hmap {Props LLM X Y} f xs _.
Arguments hiter {Props LLM X} f xs _.
Arguments hchat {Props LLM} chat p message _.
Arguments new_node {Props LLM} n _.
Arguments new_relationship {Props LLM} r _.
Arguments new_list {Props LLM X} make xs _.
Arguments label_key {Props LLM} l _.
Arguments run_heap {Props} json_dumps {LLM} chat
  nodesTextToListOfKnowledgeGraphNodes
  relationshipTextToListOfKnowledgeGraphRelationship data _.
Arguments merge_group_heap {Props} json_dumps {LLM} chat
  nodesTextToListOfKnowledgeGraphNodes new_nodes group _.
Arguments read_node {Props} h l.
Arguments read_relationship {Props} h l.
Arguments read_fragment {Props} h data.

(** From [h] to [h'] every object is kept as it is, except that a list at
    a location of [W] may have got other items. *)
Definition grows {Props : Type} (W : gset loc) (h h' : gmap loc (obj Props))
  : Prop :=
  forall l o,
    h !! l = Some o ->
    h' !! l = Some o \/
    (l ∈ W /\ exists items items',
                o = OList items /\ h' !! l = Some (OList items')).

(** ** Test doubles

    A language model that reads its answers from a script, converters that
    make one record per bracketed token, and [properties] given by their
    JSON text.  They serve the examples below only. *)

Module Example.

Definition Props : Type := string.

Definition json_dumps (p : Props) : string := p.

Definition LLM : Type := list string.

Definition chat (script : LLM) (message : list ChatMessage) : string * LLM :=
  match script with
  | [] => (EmptyString, [])
  | answer :: rest => (answer, rest)
  end.

Definition nodes_of_tokens (tokens : list string) : list (Node Props) :=
  map (fun t => {| name := t; label := "Person"; properties := "{}" |}) tokens.

Definition relationships_of_tokens (tokens : list string)
  : list (Relationship Props) :=
  map (fun t => {| start := t; type := "knows"; end_ := t;
                   rel_properties := "{}" |}) tokens.

Definition run (data : Fragment Props) (w : World LLM)
  : Fragment Props * World LLM :=
  run json_dumps chat nodes_of_tokens relationships_of_tokens data w.

Definition alice : Node Props :=
  {| name := "alice"; label := "Person"; properties := "{}" |}.
Definition alice2 : Node Props :=
  {| name := "alice2"; label := "Person"; properties := "{}" |}.
Definition acme : Node Props :=
  {| name := "acme"; label := "Organization"; properties := "{}" |}.
Definition works_at : Relationship Props :=
  {| start := "alice"; type := "worksAt"; end_ := "acme";
     rel_properties := "{}" |}.

Definition empty_fragment : Fragment Props :=
  {| nodes := []; relationships := [] |}.
Definition two_persons : Fragment Props :=
  {| nodes := [alice; alice2]; relationships := [] |}.
Definition distinct_labels : Fragment Props :=
  {| nodes := [alice; acme]; relationships := [works_at] |}.

Definition start_world (script : LLM) : World LLM :=
  {| llm := script; sent := [] |}.

(** A language model that counts its calls and always gives the same
    answer. *)
Definition constant_chat (calls : nat) (message : list ChatMessage)
  : string * nat :=
  ("[merged]", S calls).

(** An answer without brackets. *)
Definition refusal : string := "I cannot help with that.".

(** A language model that counts its calls and always refuses. *)
Definition refusing_chat (calls : nat) (message : list ChatMessage)
  : string * nat :=
  (refusal, S calls).

Definition three_nodes : Fragment Props :=
  {| nodes := [alice; acme; alice2]; relationships := [works_at] |}.

(** A store that holds [two_persons]: the mapping is at 7, its lists at 5
    and 6, the nodes at 2 and 4 and their properties at 1 and 3. *)
Definition two_persons_heap : gmap loc (obj Props) :=
  list_to_map
    [ (1%positive, OProps "{}");
      (2%positive, ONode "alice" "Person" 1%positive);
      (3%positive, OProps "{}");
      (4%positive, ONode "alice2" "Person" 3%positive);
      (5%positive, OList [2%positive; 4%positive]);
      (6%positive, OList []);
      (7%positive, OData 5%positive 6%positive) ].

Definition two_persons_store (script : LLM) : HWorld Props LLM :=
  {| heap := two_persons_heap; world := start_world script |}.

(** A store that holds [distinct_labels]: the mapping is at 9, its lists
    at 5 and 8, the nodes at 2 and 4 and the relationship at 7. *)
Definition distinct_labels_heap : gmap loc (obj Props) :=
  list_to_map
    [ (1%positive, OProps "{}");
      (2%positive, ONode "alice" "Person" 1%positive);
      (3%positive, OProps "{}");
      (4%positive, ONode "acme" "Organization" 3%positive);
      (5%positive, OList [2%positive; 4%positive]);
      (6%positive, OProps "{}");
      (7%positive, ORelationship "alice" "worksAt" "acme" 6%positive);
      (8%positive, OList [7%positive]);
      (9%positive, OData 5%positive 8%positive) ].

Definition distinct_labels_store (script : LLM) : HWorld Props LLM :=
  {| heap := distinct_labels_heap; world := start_world script |}.

End Example.

(** * Properties *)

(** ** The order on labels *)

Lemma ltb_lt (a b : string) : String.ltb a b = true <-> String_as_OT.lt a b.
Proof.
  unfold String.ltb. rewrite <- String_as_OT.cmp_lt. unfold String_as_OT.cmp.
  destruct (String.compare a b); simpl; split; intros H; first [reflexivity | discriminate H].
Qed.

Lemma ltb_trans (a b c : string) :
  String.ltb a b = true -> String.ltb b c = true -> String.ltb a c = true.
Proof.
  rewrite !ltb_lt. apply String_as_OT.lt_trans.
Qed.

Lemma ltb_irrefl (a : string) : String.ltb a a = false.
Proof.
  unfold String.ltb.
  assert (H : String.compare a a = Eq) by (apply String_as_OT.cmp_eq; reflexivity).
  rewrite H. reflexivity.
Qed.

Lemma ltb_leb (a b : string) : String.ltb a b = true -> String.leb a b = true.
Proof.
  unfold String.ltb, String.leb. destruct (String.compare a b); simpl; congruence.
Qed.

Lemma ltb_false_leb (a b : string) :
  String.ltb a b = false -> String.leb b a = true.
Proof.
  unfold String.ltb, String.leb. rewrite (String.compare_antisym b a).
  destruct (String.compare a b); simpl; congruence.
Qed.

Lemma leb_cases (a b : string) :
  String.leb a b = true -> a = b \/ String.ltb a b = true.
Proof.
  unfold String.ltb, String.leb.
  destruct (String.compare a b) eqn:E; simpl; intros H; try discriminate.
  - left. apply String.compare_eq_iff. exact E.
  - right. reflexivity.
Qed.

Lemma leb_trans (a b c : string) :
  String.leb a b = true -> String.leb b c = true -> String.leb a c = true.
Proof.
  intros Hab Hbc.
  destruct (leb_cases _ _ Hab) as [-> | Hab']; [exact Hbc |].
  destruct (leb_cases _ _ Hbc) as [<- | Hbc']; [exact Hab |].
  apply ltb_leb. eapply ltb_trans; eassumption.
Qed.

(** ** [sorted] is a stable sort, [groupby] cuts into runs *)

Section SortGroupFacts.
Context {A : Type}.
Variable key : A -> string.

Lemma insert_sorted_Permutation (x : A) (l : list A) :
  Permutation (x :: l) (insert_sorted key x l).
Proof.
  induction l as [| y l IH]; simpl.
  - apply Permutation_refl.
  - destruct (String.ltb (key y) (key x)).
    + eapply perm_trans; [apply perm_swap |]. apply perm_skip. exact IH.
    + apply Permutation_refl.
Qed.

Lemma sorted_Permutation (l : list A) : Permutation l (sorted key l).
Proof.
  induction l as [| x l IH]; simpl.
  - apply perm_nil.
  - eapply perm_trans; [| apply insert_sorted_Permutation].
    apply perm_skip. exact IH.
Qed.

Lemma insert_sorted_Forall (P : A -> Prop) (x : A) (l : list A) :
  P x -> Forall P l -> Forall P (insert_sorted key x l).
Proof.
  intros Hx Hl.
  eapply Permutation_Forall; [apply insert_sorted_Permutation |].
  constructor; assumption.
Qed.

Lemma insert_sorted_StronglySorted (x : A) (l : list A) :
  StronglySorted (le_key key) l -> StronglySorted (le_key key) (insert_sorted key x l).
Proof.
  induction 1 as [| y l Hs IH Hy]; simpl.
  - constructor; [constructor | constructor].
  - destruct (String.ltb (key y) (key x)) eqn:E.
    + constructor; [exact IH |].
      apply insert_sorted_Forall; [| exact Hy].
      apply ltb_leb. exact E.
    + constructor; [constructor; assumption |].
      assert (Hxy : (le_key key) x y) by (apply ltb_false_leb; exact E).
      constructor; [exact Hxy |].
      eapply List.Forall_impl; [| exact Hy].
      intros z Hz. eapply leb_trans; eassumption.
Qed.

Lemma sorted_StronglySorted (l : list A) : StronglySorted (le_key key) (sorted key l).
Proof.
  induction l as [| x l IH]; simpl.
  - constructor.
  - apply insert_sorted_StronglySorted. exact IH.
Qed.

Lemma filter_insert_sorted (k : string) (x : A) (l : list A) :
  List.filter (same_key key k) (insert_sorted key x l)
  = List.filter (same_key key k) (x :: l).
Proof.
  induction l as [| y l IH]; simpl; [reflexivity |].
  destruct (String.ltb (key y) (key x)) eqn:E; [| reflexivity].
  simpl. rewrite IH. simpl.
  destruct (same_key key k x) eqn:Hx, (same_key key k y) eqn:Hy; try reflexivity.
  exfalso. unfold same_key in Hx, Hy.
  apply String.eqb_eq in Hx. apply String.eqb_eq in Hy.
  rewrite Hx, Hy in E. rewrite ltb_irrefl in E. discriminate.
Qed.

Lemma sorted_stable (k : string) (l : list A) :
  List.filter (same_key key k) (sorted key l) = List.filter (same_key key k) l.
Proof.
  induction l as [| x l IH]; simpl; [reflexivity |].
  rewrite filter_insert_sorted. simpl. rewrite IH. reflexivity.
Qed.

End SortGroupFacts.

Section GroupbyFacts.
Context {A : Type}.
Variable key : A -> string.

Lemma groupby_nil_inv (l : list A) : groupby key l = [] -> l = [].
Proof.
  destruct l as [| x l]; [reflexivity |]. simpl.
  destruct (groupby key l) as [| [k g] gs]; [discriminate |].
  destruct (String.eqb (key x) k); discriminate.
Qed.

Lemma groupby_head (x : A) (l : list A) :
  exists g gs, groupby key (x :: l) = (key x, x :: g) :: gs.
Proof.
  simpl. destruct (groupby key l) as [| [k g] gs].
  - exists [], []. reflexivity.
  - destruct (String.eqb (key x) k).
    + exists g, gs. reflexivity.
    + exists [], ((k, g) :: gs). reflexivity.
Qed.

Lemma groupby_concat (l : list A) : concat (map snd (groupby key l)) = l.
Proof.
  induction l as [| x l IH]; [reflexivity |]. simpl.
  destruct (groupby key l) as [| [k g] gs].
  - simpl in *. rewrite <- IH. reflexivity.
  - destruct (String.eqb (key x) k); simpl in *; rewrite <- IH; reflexivity.
Qed.

Lemma groupby_group (l : list A) (k : string) (g : list A) :
  In (k, g) (groupby key l) ->
  g <> [] /\ Forall (fun a => key a = k) g /\ incl g l.
Proof.
  revert k g. induction l as [| x l IH]; intros k g Hin; [destruct Hin |].
  simpl in Hin.
  destruct (groupby key l) as [| [k0 g0] gs] eqn:G.
  - destruct Hin as [Heq | []]. inversion Heq; subst.
    split; [discriminate |]. split; [repeat constructor |].
    intros a [-> | []]. left. reflexivity.
  - destruct (String.eqb_spec (key x) k0) as [Hk | Hk].
    + destruct Hin as [Heq | Hin].
      * inversion Heq; subst.
        destruct (IH (key x) g0 (or_introl eq_refl)) as (_ & Hall & Hincl).
        split; [discriminate |]. split; [constructor; [reflexivity | exact Hall] |].
        intros a [-> | Ha]; [left; reflexivity | right; apply Hincl; exact Ha].
      * destruct (IH k g (or_intror Hin)) as (Hne & Hall & Hincl).
        split; [exact Hne |]. split; [exact Hall |].
        intros a Ha. right. apply Hincl. exact Ha.
    + destruct Hin as [Heq | Hin].
      * inversion Heq; subst.
        split; [discriminate |]. split; [repeat constructor |].
        intros a [-> | []]. left. reflexivity.
      * destruct (IH k g Hin) as (Hne & Hall & Hincl).
        split; [exact Hne |]. split; [exact Hall |].
        intros a Ha. right. apply Hincl. exact Ha.
Qed.

Lemma filter_none (f : A -> bool) (l : list A) :
  (forall a, In a l -> f a = false) -> List.filter f l = [].
Proof.
  induction l as [| x l IH]; intros H; [reflexivity |]. simpl.
  rewrite (H x (or_introl eq_refl)). apply IH.
  intros a Ha. apply H. right. exact Ha.
Qed.

(** In a sorted list whose first run does not have the key of [x], with
    [x] below every element, no element has the key of [x]. *)
Lemma sorted_no_later_key (x y : A) (l : list A) :
  le_key key x y -> key x <> key y ->
  StronglySorted (le_key key) (y :: l) ->
  forall z, In z (y :: l) -> key z <> key x.
Proof.
  intros Hxy Hne Hs z Hz Heq.
  apply StronglySorted_inv in Hs. destruct Hs as [_ Hall].
  destruct Hz as [-> | Hz]; [congruence |].
  rewrite List.Forall_forall in Hall. specialize (Hall z Hz).
  unfold le_key in *. rewrite Heq in Hall.
  apply Hne. apply String.leb_antisym; assumption.
Qed.

Lemma groupby_sorted (l : list A) :
  StronglySorted (le_key key) l ->
  List.NoDup (map fst (groupby key l)) /\
  forall k g, In (k, g) (groupby key l) -> g = List.filter (same_key key k) l.
Proof.
  induction 1 as [| x l Hs IH Hx]; [split; [constructor | intros k g []] |].
  destruct IH as [IHnd IHg]. simpl.
  destruct (groupby key l) as [| [k0 g0] gs] eqn:G.
  - apply groupby_nil_inv in G. subst l. split.
    + simpl. constructor; [intros [] | constructor].
    + intros k g [Heq | []]. inversion Heq; subst. simpl.
      unfold same_key. rewrite String.eqb_refl. reflexivity.
  - destruct l as [| y l']; [discriminate G |].
    assert (Hk0 : k0 = key y).
    { destruct (groupby_head y l') as (g' & gs' & Hh). rewrite Hh in G.
      inversion G. reflexivity. }
    destruct (String.eqb_spec (key x) k0) as [Hk | Hk].
    + split; [simpl; rewrite Hk; exact IHnd |].
      intros k g [Heq | Hin].
      * inversion Heq; subst k g. simpl. unfold same_key at 1.
        rewrite String.eqb_refl. f_equal.
        rewrite Hk. apply IHg. left. reflexivity.
      * assert (Hkk : k <> key x).
        { intros ->. simpl in IHnd. rewrite <- Hk in IHnd.
          apply List.NoDup_cons_iff in IHnd. destruct IHnd as [Hnotin _].
          apply Hnotin. change (key x) with (fst (key x, g)).
          apply in_map. exact Hin. }
        simpl. unfold same_key at 1.
        destruct (String.eqb_spec (key x) k) as [E | _]; [congruence |].
        apply IHg. right. exact Hin.
    + assert (Hlater : forall z, In z (y :: l') -> key z <> key x).
      { apply sorted_no_later_key; [| congruence | exact Hs].
        rewrite List.Forall_forall in Hx. apply Hx. left. reflexivity. }
      assert (Hfresh : forall k g, In (k, g) ((k0, g0) :: gs) -> k <> key x).
      { intros k g Hin. rewrite <- G in Hin.
        destruct (groupby_group _ _ _ Hin) as (Hne & Hall & Hincl).
        destruct g as [| a g]; [congruence |].
        apply Forall_inv in Hall. rewrite <- Hall.
        apply Hlater. apply Hincl. left. reflexivity. }
      split.
      * simpl. constructor; [| exact IHnd].
        intros Hin. change (In (key x) (map fst ((k0, g0) :: gs))) in Hin.
        apply in_map_iff in Hin.
        destruct Hin as ([k g] & Hfst & Hin). simpl in Hfst. subst k.
        apply (Hfresh _ _ Hin). reflexivity.
      * intros k g [Heq | Hin].
        -- inversion Heq; subst k g. unfold same_key at 1.
           rewrite String.eqb_refl. f_equal. symmetry. apply filter_none.
           intros a Ha. unfold same_key. apply String.eqb_neq.
           apply Hlater. exact Ha.
        -- unfold same_key at 1.
           destruct (String.eqb_spec (key x) k) as [E | _].
           ++ exfalso. apply (Hfresh _ _ Hin). symmetry. exact E.
           ++ apply IHg. exact Hin.
Qed.

End GroupbyFacts.

(** ** Strings *)

Lemma append_cons (x : ascii) (a b : string) :
  String.append (String x a) b = String x (String.append a b).
Proof. reflexivity. Qed.

Lemma append_assoc (a b c : string) :
  String.append (String.append a b) c = String.append a (String.append b c).
Proof.
  induction a as [| x a IH]; [reflexivity |].
  rewrite !append_cons, IH. reflexivity.
Qed.

Lemma append_empty_r (a : string) : String.append a EmptyString = a.
Proof.
  induction a as [| x a IH]; [reflexivity |].
  rewrite append_cons, IH. reflexivity.
Qed.

(** A loop [acc += f(x)] over [l] appends the texts [f x] in order. *)
Lemma fold_left_append {X : Type} (f : X -> string) (l : list X) (init : string) :
  fold_left (fun acc x => String.append acc (f x)) l init
  = String.append init (join_strings (map f l)).
Proof.
  revert init. induction l as [| x l IH]; intros init; simpl.
  - symmetry. apply append_empty_r.
  - rewrite IH. apply append_assoc.
Qed.

(** ** The steps of [run] *)

Section RunFacts.
Variable Props : Type.
Variable json_dumps : Props -> string.
Variable LLM : Type.
Variable chat : LLM -> list ChatMessage -> string * LLM.
Variable nconv : list string -> list (Node Props).
Variable rconv : list string -> list (Relationship Props).

Local Abbreviation merge_group' := (merge_group json_dumps chat nconv).
Local Abbreviation merge_groups' := (merge_groups json_dumps chat nconv).
Local Abbreviation run' := (run json_dumps chat nconv rconv).
Local Abbreviation merge_request' := (merge_request json_dumps).
Local Abbreviation validation_request' := (validation_request json_dumps).

Lemma issued_app (w w' : World LLM) (reqs : list Request) :
  sent w' = sent w ++ reqs -> issued w w' = reqs.
Proof.
  intros H. unfold issued. rewrite H.
  rewrite skipn_app, skipn_all, Nat.sub_diag. reflexivity.
Qed.

Lemma merge_group_single (acc g : list (Node Props)) (w : World LLM) :
  length g = 1 -> merge_group' acc g w = (acc ++ g, w).
Proof.
  intros H. unfold merge_group. rewrite H. reflexivity.
Qed.

Lemma merge_group_multi (acc g : list (Node Props)) (w : World LLM) :
  length g <> 1 ->
  merge_group' acc g w
  = (acc ++ nconv (findall (fst (chat (llm w) (messages (merge_request' g))))),
     {| llm := snd (chat (llm w) (messages (merge_request' g)));
        sent := sent w ++ [merge_request' g] |}).
Proof.
  intros H. unfold merge_group.
  apply Nat.eqb_neq in H. rewrite H.
  unfold bind, llm_chat, ret. rewrite fold_left_append.
  unfold merge_request, group_text. simpl.
  destruct (chat (llm w) _) as [answer l']. reflexivity.
Qed.

Lemma multi_member_length (group : string * list (Node Props)) :
  snd group <> [] ->
  multi_member group = negb (Nat.eqb (length (snd group)) 1).
Proof.
  unfold multi_member. destruct (snd group) as [| a [| b g]]; intros H.
  - congruence.
  - reflexivity.
  - reflexivity.
Qed.

(** The merging phase sends one request per group with more than one
    member, in the order of the groups, and nothing else. *)
Lemma merge_groups_sent (gs : list (string * list (Node Props))) :
  Forall (fun group => snd group <> []) gs ->
  forall (acc : list (Node Props)) (w : World LLM),
    let reqs := map (fun group => merge_request' (snd group))
                    (List.filter multi_member gs) in
    sent (snd (merge_groups' gs acc w)) = sent w ++ reqs /\
    llm (snd (merge_groups' gs acc w)) = replay chat reqs (llm w).
Proof.
  induction 1 as [| group gs Hne Hall IH]; intros acc w; simpl.
  - split; [symmetry; apply app_nil_r | reflexivity].
  - unfold bind. rewrite (multi_member_length group Hne).
    destruct (Nat.eqb (length (snd group)) 1) eqn:E; simpl.
    + apply Nat.eqb_eq in E. rewrite (merge_group_single _ _ _ E).
      apply IH.
    + apply Nat.eqb_neq in E. rewrite (merge_group_multi _ _ _ E).
      destruct (IH (acc ++ nconv (findall (fst (chat (llm w)
                     (messages (merge_request' (snd group)))))))
                   {| llm := snd (chat (llm w) (messages (merge_request' (snd group))));
                      sent := sent w ++ [merge_request' (snd group)] |})
        as [IHs IHl].
      split.
      * rewrite IHs. simpl. rewrite <- List.app_assoc. reflexivity.
      * rewrite IHl. reflexivity.
Qed.

Lemma node_groups_nonempty (data : Fragment Props) :
  Forall (fun group : string * list (Node Props) => snd group <> [])
         (node_groups_of data).
Proof.
  apply List.Forall_forall. intros [k g] Hin. simpl.
  apply (groupby_group label _ _ _ Hin).
Qed.

Lemma relationship_data_text (rels : list (Relationship Props))
                             (new_nodes : list (Node Props)) :
  relationship_data_of json_dumps rels new_nodes
  = relationships_text json_dumps rels new_nodes.
Proof.
  unfold relationship_data_of, relationships_text.
  rewrite fold_left_append. apply append_assoc.
Qed.

(** [run], phase by phase: the merging loop, then the validation call. *)
Lemma run_phases (data : Fragment Props) (w : World LLM) :
  let merged := merge_groups' (node_groups_of data) [] w in
  let req := validation_request' (relationships data) (fst merged) in
  let answer := chat (llm (snd merged)) (messages req) in
  run' data w
  = ({| nodes := fst merged;
        relationships := rconv (findall (fst answer)) |},
     {| llm := snd answer; sent := sent (snd merged) ++ [req] |}).
Proof.
  unfold run, node_groups_of, bind, llm_chat, ret. simpl.
  destruct (merge_groups' _ [] w) as [new_nodes w1]. simpl.
  rewrite relationship_data_text.
  destruct (chat (llm w1) _) as [answer l']. reflexivity.
Qed.

(** The requests of a call, in order. *)
Lemma run_issued (data : Fragment Props) (w : World LLM) :
  issued w (snd (run' data w))
  = map (fun group => merge_request' (snd group))
        (List.filter multi_member (node_groups_of data))
    ++ [validation_request' (relationships data) (nodes (fst (run' data w)))].
Proof.
  apply issued_app. rewrite run_phases. simpl.
  destruct (merge_groups_sent _ (node_groups_nonempty data) [] w) as [Hs _].
  rewrite Hs. rewrite <- List.app_assoc. reflexivity.
Qed.

End RunFacts.

(** ** The bracket scan *)

Lemma append_empty_l (a : string) : String.append EmptyString a = a.
Proof. reflexivity. Qed.

Lemma scan_close_sound (s m : string) :
  scan_close s = Some m ->
  exists post, s = String.append m (String "]"%char post)
               /\ mem_char newline m = false.
Proof.
  revert m. induction s as [| c s IH]; intros m H; simpl in H; [discriminate |].
  destruct (Ascii.eqb c "]"%char) eqn:Ec.
  - inversion H; subst m. apply Ascii.eqb_eq in Ec. subst c.
    exists s. split; reflexivity.
  - destruct (Ascii.eqb c newline) eqn:En; [discriminate |].
    destruct (scan_close s) as [m0 |]; [| discriminate].
    inversion H; subst m.
    destruct (IH m0 eq_refl) as (post & Hs & Hm).
    exists post. split.
    + rewrite append_cons. rewrite <- Hs. reflexivity.
    + simpl. rewrite En, Hm. reflexivity.
Qed.

Lemma scan_close_complete (m post : string) :
  mem_char newline m = false ->
  exists m', scan_close (String.append m (String "]"%char post)) = Some m'.
Proof.
  induction m as [| c m IH]; intros H.
  - exists EmptyString. reflexivity.
  - simpl in H. apply orb_false_iff in H. destruct H as [Hc Hm].
    rewrite append_cons. simpl.
    destruct (Ascii.eqb c "]"%char); [eexists; reflexivity |].
    rewrite Hc. destruct (IH Hm) as [m' Hm']. rewrite Hm'.
    eexists. reflexivity.
Qed.

Lemma bracketed_append (m post : string) :
  String.append (String.append "[" (String.append m "]")) post
  = String "["%char (String.append m (String "]"%char post)).
Proof. rewrite !append_assoc. reflexivity. Qed.

Lemma has_match_b_complete (text : string) :
  has_match text -> has_match_b text = true.
Proof.
  intros (pre & u & post & Htext & m & Hu & Hm). subst text u.
  induction pre as [| c pre IH].
  - rewrite append_empty_l, bracketed_append. simpl.
    destruct (scan_close_complete m post Hm) as [m' Hm']. rewrite Hm'.
    reflexivity.
  - rewrite append_cons. simpl. rewrite IH. apply orb_true_r.
Qed.

Lemma has_match_b_sound (text : string) :
  has_match_b text = true -> has_match text.
Proof.
  induction text as [| c s IH]; simpl; [discriminate |].
  intros H. apply orb_true_iff in H. destruct H as [H | H].
  - apply andb_true_iff in H. destruct H as [Hc Hs].
    apply Ascii.eqb_eq in Hc. subst c.
    destruct (scan_close s) as [m |] eqn:E; [| discriminate].
    destruct (scan_close_sound _ _ E) as (post & Hs' & Hm).
    exists EmptyString, (String.append "[" (String.append m "]")), post.
    split.
    + rewrite append_empty_l, bracketed_append, <- Hs'. reflexivity.
    + exists m. split; [reflexivity | exact Hm].
  - destruct (IH H) as (pre & u & post & Htext & Hu).
    exists (String c pre), u, post. split; [| exact Hu].
    rewrite append_cons, <- Htext. reflexivity.
Qed.

Lemma no_match_b (text : string) : ~ has_match text -> has_match_b text = false.
Proof.
  intros H. destruct (has_match_b text) eqn:E; [| reflexivity].
  exfalso. apply H. apply has_match_b_sound. exact E.
Qed.

Lemma findall_from_no_match (text : string) :
  has_match_b text = false -> forall skip, findall_from skip text = [].
Proof.
  induction text as [| c s IH]; intros H skip; [reflexivity |].
  simpl in H. apply orb_false_iff in H. destruct H as [Hhere Hrest].
  simpl. destruct skip as [| k]; [| apply IH; exact Hrest].
  destruct (Ascii.eqb c "["%char); [| apply IH; exact Hrest].
  destruct (scan_close s); [discriminate Hhere | apply IH; exact Hrest].
Qed.

(** ** Groups of a list with pairwise distinct keys *)

Lemma filter_same_key_NoDup {A : Type} (key : A -> string) (k : string)
                            (l : list A) :
  List.NoDup (map key l) -> length (List.filter (same_key key k) l) <= 1.
Proof.
  induction l as [| x l IH]; intros Hnd; simpl; [lia |].
  simpl in Hnd. apply List.NoDup_cons_iff in Hnd. destruct Hnd as [Hx Hnd].
  unfold same_key at 1. destruct (String.eqb_spec (key x) k) as [E | E].
  - rewrite (filter_none (same_key key k) l); [simpl; lia |].
    intros a Ha. unfold same_key. apply String.eqb_neq. intros Ea.
    apply Hx. rewrite E, <- Ea. apply in_map. exact Ha.
  - apply IH. exact Hnd.
Qed.

Lemma requests_for_app (p : Purpose) (r1 r2 : list Request) :
  requests_for p (r1 ++ r2) = requests_for p r1 ++ requests_for p r2.
Proof. unfold requests_for. apply List.filter_app. Qed.

(** ** Properties of [run] *)

Section RunProperties.
Variable Props : Type.
Variable json_dumps : Props -> string.
Variable LLM : Type.
Variable chat : LLM -> list ChatMessage -> string * LLM.
Variable nconv : list string -> list (Node Props).
Variable rconv : list string -> list (Relationship Props).

Local Abbreviation merge_group' := (merge_group json_dumps chat nconv).
Local Abbreviation merge_groups' := (merge_groups json_dumps chat nconv).
Local Abbreviation run' := (run json_dumps chat nconv rconv).
Local Abbreviation merge_request' := (merge_request json_dumps).
Local Abbreviation validation_request' := (validation_request json_dumps).
Local Abbreviation merge_requests_of :=
  (fun data : Fragment Props =>
     map (fun group : string * list (Node Props) => merge_request' (snd group))
         (List.filter multi_member (node_groups_of data))).

Lemma requests_for_merge_requests (p : Purpose)
                                  (gs : list (string * list (Node Props))) :
  requests_for p (map (fun group => merge_request' (snd group)) gs)
  = match p with
    | MergeNodes => map (fun group => merge_request' (snd group)) gs
    | ValidateRelationships => []
    end.
Proof.
  induction gs as [| group gs IH]; [destruct p; reflexivity |].
  unfold requests_for in *. destruct p; simpl in *; rewrite IH; reflexivity.
Qed.

Lemma run_nodes (data : Fragment Props) (w : World LLM) :
  nodes (fst (run' data w)) = fst (merge_groups' (node_groups_of data) [] w).
Proof. rewrite run_phases. reflexivity. Qed.

Lemma run_relationships (data : Fragment Props) (w : World LLM) :
  relationships (fst (run' data w))
  = rconv (findall (rawRelationships_of json_dumps chat nconv data w)).
Proof. rewrite run_phases. reflexivity. Qed.

Lemma merge_groups_singletons (gs : list (string * list (Node Props))) :
  Forall (fun group => length (snd group) = 1) gs ->
  forall (acc : list (Node Props)) (w : World LLM),
    merge_groups' gs acc w = (acc ++ concat (map snd gs), w).
Proof.
  induction 1 as [| group gs Hg Hall IH]; intros acc w; simpl.
  - unfold ret. rewrite app_nil_r. reflexivity.
  - unfold bind. rewrite merge_group_single by exact Hg.
    rewrite IH. rewrite <- List.app_assoc. reflexivity.
Qed.

Lemma distinct_labels_singletons (data : Fragment Props) :
  List.NoDup (map label (nodes data)) ->
  Forall (fun group : string * list (Node Props) => length (snd group) = 1)
         (node_groups_of data).
Proof.
  intros Hnd. apply List.Forall_forall. intros [k g] Hin. simpl.
  unfold node_groups_of in Hin.
  destruct (groupby_group label _ _ _ Hin) as (Hne & _ & _).
  destruct (groupby_sorted label _ (sorted_StronglySorted label (nodes data)))
    as [_ Hg].
  pose proof (Hg k g Hin) as Heq. rewrite sorted_stable in Heq.
  pose proof (filter_same_key_NoDup label k (nodes data) Hnd) as Hle.
  rewrite <- Heq in Hle. destruct g as [| a [| b g]]; simpl in *;
    [congruence | reflexivity | lia].
Qed.

Lemma filter_multi_member_singletons (gs : list (string * list (Node Props))) :
  Forall (fun group => length (snd group) = 1) gs ->
  List.filter multi_member gs = [].
Proof.
  intros H. apply filter_none. rewrite List.Forall_forall in H.
  intros group Hin. unfold multi_member. rewrite (H group Hin). reflexivity.
Qed.

Lemma replay_app (r1 r2 : list Request) (l : LLM) :
  replay chat (r1 ++ r2) l = replay chat r2 (replay chat r1 l).
Proof. unfold replay. apply fold_left_app. Qed.

(** With an answer that does not depend on the state of the language
    model, the merging phase builds the same node list from every state. *)
Lemma merge_groups_deterministic (gs : list (string * list (Node Props))) :
  (forall (l l' : LLM) (message : list ChatMessage),
      fst (chat l message) = fst (chat l' message)) ->
  forall (acc : list (Node Props)) (w1 w2 : World LLM),
    fst (merge_groups' gs acc w1) = fst (merge_groups' gs acc w2).
Proof.
  intros Hdet. induction gs as [| group gs IH]; intros acc w1 w2; simpl.
  - reflexivity.
  - unfold bind.
    destruct (Nat.eq_dec (length (snd group)) 1) as [E | E].
    + rewrite !merge_group_single by exact E. apply IH.
    + rewrite !merge_group_multi by exact E. simpl.
      rewrite (Hdet (llm w1) (llm w2)). apply IH.
Qed.

Lemma run_requests_for_merge (data : Fragment Props) (w : World LLM) :
  requests_for MergeNodes (issued w (snd (run' data w)))
  = merge_requests_of data.
Proof.
  rewrite run_issued, requests_for_app, requests_for_merge_requests.
  apply app_nil_r.
Qed.

Lemma run_requests_for_validation (data : Fragment Props) (w : World LLM) :
  requests_for ValidateRelationships (issued w (snd (run' data w)))
  = [validation_request' (relationships data) (nodes (fst (run' data w)))].
Proof.
  rewrite run_issued, requests_for_app, requests_for_merge_requests.
  reflexivity.
Qed.

Lemma run_sent (data : Fragment Props) (w : World LLM) :
  sent (snd (run' data w)) = sent w ++ issued w (snd (run' data w)).
Proof.
  rewrite run_issued. rewrite run_phases. simpl.
  destruct (merge_groups_sent _ json_dumps _ chat nconv _
              (node_groups_nonempty _ data) [] w) as [Hs _].
  rewrite Hs. rewrite <- List.app_assoc. reflexivity.
Qed.

(** C2. When the labels of the input nodes are pairwise distinct, [run]
    sends no request for node merging, and its output nodes are the input
    nodes stably sorted by label: the same nodes (a permutation of the
    input), in ascending order of label. *)
Theorem distinct_labels_pass_through (data : Fragment Props) (w : World LLM) :
  List.NoDup (map label (nodes data)) ->
  requests_for MergeNodes (issued w (snd (run' data w))) = [] /\
  nodes (fst (run' data w)) = sorted label (nodes data) /\
  Permutation (nodes data) (nodes (fst (run' data w))) /\
  StronglySorted (le_key label) (nodes (fst (run' data w))) /\
  (forall k, List.filter (same_key label k) (nodes (fst (run' data w)))
             = List.filter (same_key label k) (nodes data)).
Proof.
  intros Hnd.
  pose proof (distinct_labels_singletons data Hnd) as Hsing.
  assert (Hnodes : nodes (fst (run' data w)) = sorted label (nodes data)).
  { rewrite run_nodes, merge_groups_singletons by exact Hsing. simpl.
    apply groupby_concat. }
  split.
  - rewrite run_requests_for_merge.
    rewrite filter_multi_member_singletons by exact Hsing. reflexivity.
  - rewrite Hnodes. split; [reflexivity |]. split; [apply sorted_Permutation |].
    split; [apply sorted_StronglySorted |]. intros k. apply sorted_stable.
Qed.

(** C3. Every call of [run] sends exactly one relationship-validation
    request, whatever the fragment; in particular when the fragment has no
    relationship. *)
Theorem validation_requested_once (data : Fragment Props) (w : World LLM) :
  length (requests_for ValidateRelationships (issued w (snd (run' data w))))
  = 1 /\
  (forall input_nodes : list (Node Props),
      length (requests_for ValidateRelationships
                (issued w (snd (run' {| nodes := input_nodes;
                                        relationships := [] |} w))))
      = 1).
Proof.
  split; [| intros input_nodes];
    rewrite run_requests_for_validation; reflexivity.
Qed.

(** C4. The requests [run] sends are one per group with more than one
    member and one for the validation, so their number is the number of
    such groups plus one.  The language model is reached through these
    requests only: its state after the call is the state after answering
    them in order, and the log of requests grew by them and nothing else. *)
Theorem requests_count (data : Fragment Props) (w : World LLM) :
  let reqs := issued w (snd (run' data w)) in
  length reqs
  = length (List.filter multi_member (node_groups_of data)) + 1 /\
  length (requests_for MergeNodes reqs)
  = length (List.filter multi_member (node_groups_of data)) /\
  length (requests_for ValidateRelationships reqs) = 1 /\
  sent (snd (run' data w)) = sent w ++ reqs /\
  llm (snd (run' data w)) = replay chat reqs (llm w).
Proof.
  cbv zeta. split; [| split; [| split; [| split]]].
  - rewrite run_issued, length_app, length_map. reflexivity.
  - rewrite run_requests_for_merge, length_map. reflexivity.
  - rewrite run_requests_for_validation. reflexivity.
  - apply run_sent.
  - rewrite run_issued, replay_app. rewrite run_phases. simpl.
    destruct (merge_groups_sent _ json_dumps _ chat nconv _
                (node_groups_nonempty _ data) [] w) as [_ Hl].
    rewrite <- Hl. reflexivity.
Qed.

(** C5, as amended.  The user message of the validation request is the
    [generate_prompt] template around the relationship text: the line
    [ Here is the data:], then the header [Relationships:], one bracketed
    line per input relationship, the header [Valid Nodes:], the names of
    the nodes the merging phase produced separated by newlines, and a
    final newline. *)
Theorem validation_user_message (data : Fragment Props) (w : World LLM) :
  let new_nodes := fst (merge_groups' (node_groups_of data) [] w) in
  map (contents_of USER)
      (requests_for ValidateRelationships (issued w (snd (run' data w))))
  = [ [ String.append " Here is the data:"
          (String.append NL
             (String.append
                (String.append (String.append "Relationships:" NL)
                   (String.append
                      (join_strings
                         (map (relationship_line json_dumps)
                              (relationships data)))
                      (String.append (String.append "Valid Nodes:" NL)
                                     (String.concat NL (map name new_nodes)))))
                NL)) ] ] /\
  nodes (fst (run' data w)) = new_nodes.
Proof.
  cbv zeta. rewrite run_requests_for_validation, run_nodes.
  split; reflexivity.
Qed.

(** C6. A response with no substring matching the bracket pattern gives
    no match.  With converters that map no token to no record, a merging
    step that receives such a response adds no node and a validation that
    receives it gives no relationship; each step has sent its one request
    and the call goes on to return. *)
Theorem no_match_empty_result (text : string) :
  ~ has_match text ->
  nconv [] = [] ->
  rconv [] = [] ->
  findall text = [] /\
  (forall (new_nodes nodes_in_group : list (Node Props)) (w : World LLM),
      length nodes_in_group <> 1 ->
      fst (chat (llm w) (messages (merge_request' nodes_in_group))) = text ->
      fst (merge_group' new_nodes nodes_in_group w) = new_nodes /\
      issued w (snd (merge_group' new_nodes nodes_in_group w))
      = [merge_request' nodes_in_group]) /\
  (forall (data : Fragment Props) (w : World LLM),
      rawRelationships_of json_dumps chat nconv data w = text ->
      relationships (fst (run' data w)) = [] /\
      length (requests_for ValidateRelationships
                (issued w (snd (run' data w)))) = 1).
Proof.
  intros Hno Hn Hr.
  assert (Hfind : findall text = []).
  { apply findall_from_no_match. apply no_match_b. exact Hno. }
  split; [exact Hfind |]. split.
  - intros new_nodes nodes_in_group w Hlen Hanswer.
    rewrite merge_group_multi by exact Hlen. cbn [fst snd].
    rewrite Hanswer, Hfind, Hn. split; [apply app_nil_r |].
    apply issued_app. reflexivity.
  - intros data w Hanswer. split.
    + rewrite run_relationships, Hanswer, Hfind. exact Hr.
    + rewrite run_requests_for_validation. reflexivity.
Qed.

(** C7. The groups of [run] are the runs of equal label of the input
    nodes stably sorted by label.  The sorted list is a permutation of the
    input in ascending order of label that keeps the order of the nodes of
    each label; the groups, one after the other, are the sorted list; no
    two groups have the same label; the group of a label is made of all
    the input nodes with that label, in their input order; and every input
    node is in the group of its label. *)
Theorem groups_are_label_classes (data : Fragment Props) :
  let sorted_nodes := sorted label (nodes data) in
  Permutation (nodes data) sorted_nodes /\
  StronglySorted (le_key label) sorted_nodes /\
  (forall k, List.filter (same_key label k) sorted_nodes
             = List.filter (same_key label k) (nodes data)) /\
  concat (map snd (node_groups_of data)) = sorted_nodes /\
  List.NoDup (map fst (node_groups_of data)) /\
  (forall k g, In (k, g) (node_groups_of data) ->
               g <> [] /\ g = List.filter (same_key label k) (nodes data)) /\
  (forall n, In n (nodes data) ->
             exists g, In (label n, g) (node_groups_of data) /\ In n g).
Proof.
  cbv zeta.
  pose proof (sorted_StronglySorted label (nodes data)) as Hsorted.
  destruct (groupby_sorted label _ Hsorted) as [Hnd Hg].
  assert (Hclass : forall k g, In (k, g) (node_groups_of data) ->
            g <> [] /\ g = List.filter (same_key label k) (nodes data)).
  { intros k g Hin. split; [apply (groupby_group label _ _ _ Hin) |].
    rewrite <- sorted_stable. apply Hg. exact Hin. }
  split; [apply sorted_Permutation |]. split; [exact Hsorted |].
  split; [intros k; apply sorted_stable |].
  split; [apply groupby_concat |]. split; [exact Hnd |].
  split; [exact Hclass |].
  intros n Hn.
  assert (Hin : In n (concat (map snd (node_groups_of data)))).
  { unfold node_groups_of. rewrite groupby_concat.
    eapply Permutation_in; [apply sorted_Permutation | exact Hn]. }
  apply in_concat in Hin. destruct Hin as (g & Hg' & Hng).
  apply in_map_iff in Hg'. destruct Hg' as ([k g'] & Hsnd & Hin).
  simpl in Hsnd. subst g'.
  destruct (groupby_group label _ _ _ Hin) as (_ & Hall & _).
  rewrite List.Forall_forall in Hall. rewrite (Hall n Hng).
  exists g. split; assumption.
Qed.

(** C8. Every request of a call, for node merging and for relationship
    validation alike, has one system message, whose text is the string of
    [generate_system_message_for_relationships]. *)
Theorem same_system_message (data : Fragment Props) (w : World LLM) :
  Forall (fun request =>
            contents_of SYSTEM request
            = [generate_system_message_for_relationships])
         (issued w (snd (run' data w))) /\
  Forall (fun request =>
            contents_of SYSTEM request
            = [generate_system_message_for_relationships])
         (requests_for MergeNodes (issued w (snd (run' data w)))) /\
  Forall (fun request =>
            contents_of SYSTEM request
            = [generate_system_message_for_relationships])
         (requests_for ValidateRelationships (issued w (snd (run' data w)))).
Proof.
  assert (Hmerge : forall gs : list (string * list (Node Props)),
            Forall (fun request =>
                      contents_of SYSTEM request
                      = [generate_system_message_for_relationships])
                   (map (fun group => merge_request' (snd group)) gs)).
  { intros gs. apply List.Forall_forall. intros request Hin.
    apply in_map_iff in Hin. destruct Hin as (group & <- & _). reflexivity. }
  rewrite run_requests_for_merge, run_requests_for_validation, run_issued.
  split; [| split].
  - apply List.Forall_app. split; [apply Hmerge |].
    constructor; [reflexivity | constructor].
  - apply Hmerge.
  - constructor; [reflexivity | constructor].
Qed.

(** C9. When the answer of the language model depends on the messages
    only, two calls of [run] on the same fragment send the same requests in
    the same order and return the same fragment, from whatever states of
    the language model they start. *)
Theorem run_deterministic (data : Fragment Props) (w1 w2 : World LLM) :
  (forall (l l' : LLM) (message : list ChatMessage),
      fst (chat l message) = fst (chat l' message)) ->
  issued w1 (snd (run' data w1)) = issued w2 (snd (run' data w2)) /\
  fst (run' data w1) = fst (run' data w2).
Proof.
  intros Hdet.
  assert (Hnodes : nodes (fst (run' data w1)) = nodes (fst (run' data w2))).
  { rewrite !run_nodes. apply merge_groups_deterministic. exact Hdet. }
  split.
  - rewrite !run_issued, Hnodes. reflexivity.
  - rewrite !run_phases. simpl. rewrite !run_nodes in Hnodes.
    rewrite Hnodes. f_equal. f_equal. f_equal. apply Hdet.
Qed.

End RunProperties.

(** ** [sorted] and [groupby] on related lists *)

Section Parametric.
Context {A B : Type}.
Variable R : A -> B -> Prop.
Variable keyA : A -> string.
Variable keyB : B -> string.
Hypothesis key_agree : forall a b, R a b -> keyA a = keyB b.

Lemma insert_sorted_Forall2 (a : A) (b : B) (la : list A) (lb : list B) :
  R a b -> Forall2 R la lb ->
  Forall2 R (insert_sorted keyA a la) (insert_sorted keyB b lb).
Proof.
  intros Hab Hl. induction Hl as [| a' b' la lb Hab' Hl IH]; simpl.
  - constructor; [exact Hab | constructor].
  - rewrite (key_agree _ _ Hab), (key_agree _ _ Hab').
    destruct (String.ltb (keyB b') (keyB b)).
    + constructor; assumption.
    + constructor; [exact Hab |]. constructor; assumption.
Qed.

Lemma sorted_Forall2 (la : list A) (lb : list B) :
  Forall2 R la lb -> Forall2 R (sorted keyA la) (sorted keyB lb).
Proof.
  induction 1 as [| a b la lb Hab Hl IH]; simpl; [constructor |].
  apply insert_sorted_Forall2; assumption.
Qed.

Lemma groupby_Forall2 (la : list A) (lb : list B) :
  Forall2 R la lb ->
  Forall2 (fun ga gb => fst ga = fst gb /\ Forall2 R (snd ga) (snd gb))
          (groupby keyA la) (groupby keyB lb).
Proof.
  induction 1 as [| a b la lb Hab Hl IH]; simpl; [constructor |].
  rewrite (key_agree _ _ Hab).
  destruct IH as [| [ka ga] [kb gb] gsa gsb [Hk Hg] Hgs].
  - constructor; [| constructor]. simpl.
    split; [reflexivity |]. constructor; [exact Hab | constructor].
  - simpl in Hk, Hg. subst ka.
    destruct (String.eqb (keyB b) kb).
    + constructor; [| exact Hgs]. simpl.
      split; [reflexivity |]. constructor; assumption.
    + constructor.
      * simpl. split; [reflexivity |]. constructor; [exact Hab | constructor].
      * constructor; [| exact Hgs]. simpl. split; [reflexivity | exact Hg].
Qed.

End Parametric.

Lemma fold_left_append_map {X : Type} (f : X -> string) (l : list X)
                           (init : string) :
  fold_left String.append (map f l) init
  = fold_left (fun acc x => String.append acc (f x)) l init.
Proof.
  revert init. induction l as [| x l IH]; intros init; simpl;
    [reflexivity | apply IH].
Qed.

Lemma option_map_list_Forall2 {X Y : Type} (f : X -> option Y)
                              (xs : list X) (ys : list Y) :
  option_map_list f xs = Some ys <-> Forall2 (fun x y => f x = Some y) xs ys.
Proof.
  revert ys. induction xs as [| x xs IH]; intros ys; simpl.
  - split.
    + intros H. inversion H. constructor.
    + intros H. inversion H. reflexivity.
  - split.
    + destruct (f x) as [y |] eqn:E; [| discriminate].
      destruct (option_map_list f xs) as [ys' |]; [| discriminate].
      intros H. inversion H; subst. constructor; [exact E |].
      apply IH. reflexivity.
    + intros H. inversion H as [| x' y l l' Hy Hl]; subst.
      rewrite Hy. apply IH in Hl. rewrite Hl. reflexivity.
Qed.

(** ** The store *)

Section StoreFacts.
Variable Props : Type.

Implicit Types h : gmap loc (obj Props).

Lemma grows_refl (W : gset loc) h : grows W h h.
Proof. intros l o H. left. exact H. Qed.

Lemma grows_trans (W : gset loc) h1 h2 h3 :
  grows W h1 h2 -> grows W h2 h3 -> grows W h1 h3.
Proof.
  intros H12 H23 l o H1.
  destruct (H12 l o H1) as [H2 | (HW & items & items' & -> & H2)].
  - apply H23. exact H2.
  - destruct (H23 l _ H2) as [H3 | (_ & items1 & items2 & Heq & H3)].
    + right. split; [exact HW |]. exists items, items'. split; [reflexivity | exact H3].
    + right. split; [exact HW |]. exists items, items2. split; [reflexivity | exact H3].
Qed.

Lemma subseteq_grows (W : gset loc) h h' : h ⊆ h' -> grows W h h'.
Proof.
  intros Hsub l o H. left.
  eapply lookup_weaken; eassumption.
Qed.

Lemma grows_store_list (W : gset loc) h (l : loc) (items items' : list loc) :
  l ∈ W -> h !! l = Some (OList items) ->
  grows W h (<[l := OList items']> h).
Proof.
  intros HW Hl l' o H. destruct (decide (l = l')) as [<- | Hne].
  - right. split; [exact HW |]. exists items, items'.
    split; [congruence | apply lookup_insert_eq].
  - left. rewrite lookup_insert_ne by exact Hne. exact H.
Qed.

(** Nothing that existed changes when the lists that may change are new. *)
Lemma grows_frame (W : gset loc) h h' :
  (forall l, l ∈ W -> h !! l = None) -> grows W h h' -> h ⊆ h'.
Proof.
  intros Hnew Hg. apply map_subseteq_spec. intros l o H.
  destruct (Hg l o H) as [H' | (HW & _)]; [exact H' |].
  rewrite (Hnew l HW) in H. discriminate.
Qed.

Lemma grows_keep (W : gset loc) h h' (l : loc) (o : obj Props) :
  grows W h h' -> l ∉ W -> h !! l = Some o -> h' !! l = Some o.
Proof.
  intros Hg HW H. destruct (Hg l o H) as [H' | (HW' & _)]; [exact H' |].
  contradiction.
Qed.

Lemma read_node_grows (W : gset loc) h h' (l : loc) (n : Node Props) :
  grows W h h' -> read_node h l = Some n -> read_node h' l = Some n.
Proof.
  intros Hg. unfold read_node.
  destruct (h !! l) as [[nm lb pl | | | |] |] eqn:El; try discriminate.
  destruct (h !! pl) as [[| | p | |] |] eqn:Ep; try discriminate.
  intros H.
  destruct (Hg _ _ El) as [-> | (_ & i1 & i2 & Hbad & _)]; [| discriminate].
  destruct (Hg _ _ Ep) as [-> | (_ & i1 & i2 & Hbad & _)]; [| discriminate].
  exact H.
Qed.

Lemma read_relationship_grows (W : gset loc) h h' (l : loc)
                              (r : Relationship Props) :
  grows W h h' ->
  read_relationship h l = Some r -> read_relationship h' l = Some r.
Proof.
  intros Hg. unfold read_relationship.
  destruct (h !! l) as [[| s t e pl | | |] |] eqn:El; try discriminate.
  destruct (h !! pl) as [[| | p | |] |] eqn:Ep; try discriminate.
  intros H.
  destruct (Hg _ _ El) as [-> | (_ & i1 & i2 & Hbad & _)]; [| discriminate].
  destruct (Hg _ _ Ep) as [-> | (_ & i1 & i2 & Hbad & _)]; [| discriminate].
  exact H.
Qed.

Lemma Forall2_read_grows {X : Type}
      (rd : gmap loc (obj Props) -> loc -> option X)
      h h' (ls : list loc) (xs : list X) :
  (forall l x, rd h l = Some x -> rd h' l = Some x) ->
  Forall2 (fun l x => rd h l = Some x) ls xs ->
  Forall2 (fun l x => rd h' l = Some x) ls xs.
Proof.
  intros Hmono H. induction H; constructor; auto.
Qed.

End StoreFacts.

(** ** The steps of [run_heap] *)

Section StoreRun.
Variable Props : Type.
Variable json_dumps : Props -> string.
Variable LLM : Type.
Variable chat : LLM -> list ChatMessage -> string * LLM.
Variable nconv : list string -> list (Node Props).
Variable rconv : list string -> list (Relationship Props).

Implicit Types hw : HWorld Props LLM.
Implicit Types h : gmap loc (obj Props).

Lemma hbind_Some {T U : Type} (c : H Props LLM T) (k : T -> H Props LLM U)
                 hw (x : T) hw1 :
  c hw = Some (x, hw1) -> hbind c k hw = k x hw1.
Proof. intros E. unfold hbind. rewrite E. reflexivity. Qed.

Lemma load_spec hw (l : loc) (o : obj Props) :
  heap hw !! l = Some o -> load l hw = Some (o, hw).
Proof. intros E. unfold load. rewrite E. reflexivity. Qed.

Lemma get_list_spec hw (l : loc) (items : list loc) :
  heap hw !! l = Some (OList items) -> get_list l hw = Some (items, hw).
Proof.
  intros E. unfold get_list. rewrite (hbind_Some _ _ _ _ _ (load_spec _ _ _ E)).
  reflexivity.
Qed.

Lemma get_node_spec hw (l : loc) (n : Node Props) :
  read_node (heap hw) l = Some n -> get_node l hw = Some (n, hw).
Proof.
  unfold read_node, get_node, get_props, hbind, load.
  destruct (heap hw !! l) as [[nm lb pl | | | |] |]; try discriminate.
  destruct (heap hw !! pl) as [[| | p | |] |]; try discriminate.
  intros E. inversion E. reflexivity.
Qed.

Lemma get_relationship_spec hw (l : loc) (r : Relationship Props) :
  read_relationship (heap hw) l = Some r ->
  get_relationship l hw = Some (r, hw).
Proof.
  unfold read_relationship, get_relationship, get_props, hbind, load.
  destruct (heap hw !! l) as [[| s t e pl | | |] |]; try discriminate.
  destruct (heap hw !! pl) as [[| | p | |] |]; try discriminate.
  intros E. inversion E. reflexivity.
Qed.

Lemma label_key_spec hw (l : loc) (n : Node Props) :
  read_node (heap hw) l = Some n ->
  label_key l hw = Some ((l, label n), hw).
Proof.
  unfold read_node, label_key, hbind, load.
  destruct (heap hw !! l) as [[nm lb pl | | | |] |]; try discriminate.
  destruct (heap hw !! pl) as [[| | p | |] |]; try discriminate.
  intros E. inversion E. reflexivity.
Qed.

(** A loop of reads leaves the store as it is. *)
Lemma hmap_read {X Y : Type} (rd : loc -> H Props LLM X) (f : X -> Y)
                hw (ls : list loc) (xs : list X) :
  Forall2 (fun l x => rd l hw = Some (x, hw)) ls xs ->
  hmap (fun l => hbind (rd l) (fun x => hret (f x))) ls hw
  = Some (map f xs, hw).
Proof.
  induction 1 as [| l x ls xs Hl Hls IH]; simpl; [reflexivity |].
  unfold hbind at 1. unfold hbind at 1. rewrite Hl. unfold hret at 1.
  unfold hbind at 1. rewrite IH. reflexivity.
Qed.

Lemma hmap_label_key hw (ls : list loc) (ns : list (Node Props)) :
  Forall2 (fun l n => read_node (heap hw) l = Some n) ls ns ->
  exists keyed : list (loc * string),
    hmap label_key ls hw = Some (keyed, hw) /\
    Forall2 (fun kl n => read_node (heap hw) (fst kl) = Some n
                         /\ snd kl = label n) keyed ns.
Proof.
  induction 1 as [| l n ls ns Hl Hls (keyed & Hk & Hrel)]; simpl.
  - exists []. split; [reflexivity | constructor].
  - exists ((l, label n) :: keyed). split.
    + rewrite (hbind_Some _ _ _ _ _ (label_key_spec _ _ _ Hl)).
      rewrite (hbind_Some _ _ _ _ _ Hk). reflexivity.
    + constructor; [split; [exact Hl | reflexivity] | exact Hrel].
Qed.

(** New objects, for the records a converter returns. *)
Lemma new_node_spec hw (n : Node Props) :
  exists (l : loc) hw',
    new_node n hw = Some (l, hw') /\ heap hw ⊆ heap hw' /\
    world hw' = world hw /\ read_node (heap hw') l = Some n.
Proof.
  unfold new_node, hbind, alloc. simpl.
  set (l1 := fresh (dom (heap hw))).
  set (h1 := <[l1 := OProps (properties n)]> (heap hw)).
  set (l2 := fresh (dom h1)).
  assert (H1 : heap hw !! l1 = None) by (apply not_elem_of_dom, is_fresh).
  assert (H2 : h1 !! l2 = None) by (apply not_elem_of_dom, is_fresh).
  assert (Hne : l2 <> l1).
  { intros E. rewrite E in H2. unfold h1 in H2.
    rewrite lookup_insert_eq in H2. discriminate. }
  eexists _, _. split; [reflexivity |]. simpl. split; [| split].
  - etrans; [apply (insert_subseteq _ l1); exact H1 |].
    apply insert_subseteq. exact H2.
  - reflexivity.
  - unfold read_node. rewrite lookup_insert_eq.
    rewrite lookup_insert_ne by exact Hne. unfold h1.
    rewrite lookup_insert_eq. destruct n; reflexivity.
Qed.

Lemma new_relationship_spec hw (r : Relationship Props) :
  exists (l : loc) hw',
    new_relationship r hw = Some (l, hw') /\ heap hw ⊆ heap hw' /\
    world hw' = world hw /\ read_relationship (heap hw') l = Some r.
Proof.
  unfold new_relationship, hbind, alloc. simpl.
  set (l1 := fresh (dom (heap hw))).
  set (h1 := <[l1 := OProps (rel_properties r)]> (heap hw)).
  set (l2 := fresh (dom h1)).
  assert (H1 : heap hw !! l1 = None) by (apply not_elem_of_dom, is_fresh).
  assert (H2 : h1 !! l2 = None) by (apply not_elem_of_dom, is_fresh).
  assert (Hne : l2 <> l1).
  { intros E. rewrite E in H2. unfold h1 in H2.
    rewrite lookup_insert_eq in H2. discriminate. }
  eexists _, _. split; [reflexivity |]. simpl. split; [| split].
  - etrans; [apply (insert_subseteq _ l1); exact H1 |].
    apply insert_subseteq. exact H2.
  - reflexivity.
  - unfold read_relationship. rewrite lookup_insert_eq.
    rewrite lookup_insert_ne by exact Hne. unfold h1.
    rewrite lookup_insert_eq. destruct r; reflexivity.
Qed.

Section NewList.
Context {X : Type}.
Variable make : X -> H Props LLM loc.
Variable rd : gmap loc (obj Props) -> loc -> option X.
Hypothesis make_spec :
  forall hw (x : X),
    exists (l : loc) hw',
      make x hw = Some (l, hw') /\ heap hw ⊆ heap hw' /\
      world hw' = world hw /\ rd (heap hw') l = Some x.
Hypothesis rd_mono :
  forall h h' (l : loc) (x : X), h ⊆ h' -> rd h l = Some x -> rd h' l = Some x.

Lemma hmap_make (xs : list X) :
  forall hw,
    exists (ls : list loc) hw',
      hmap make xs hw = Some (ls, hw') /\ heap hw ⊆ heap hw' /\
      world hw' = world hw /\
      Forall2 (fun l x => rd (heap hw') l = Some x) ls xs.
Proof.
  induction xs as [| x xs IH]; intros hw; simpl.
  - exists [], hw. split; [reflexivity |]. split; [reflexivity |].
    split; [reflexivity | constructor].
  - destruct (make_spec hw x) as (l & hw1 & Hm & Hsub1 & Hw1 & Hrd).
    destruct (IH hw1) as (ls & hw2 & Hms & Hsub2 & Hw2 & Hrds).
    exists (l :: ls), hw2.
    split; [| split; [| split]].
    + rewrite (hbind_Some _ _ _ _ _ Hm), (hbind_Some _ _ _ _ _ Hms).
      reflexivity.
    + etrans; eassumption.
    + congruence.
    + constructor; [| exact Hrds]. eapply rd_mono; eassumption.
Qed.

Lemma new_list_spec (xs : list X) hw :
  exists (l : loc) (ls : list loc) hw',
    new_list make xs hw = Some (l, hw') /\ heap hw ⊆ heap hw' /\
    world hw' = world hw /\ heap hw' !! l = Some (OList ls) /\
    Forall2 (fun l x => rd (heap hw') l = Some x) ls xs.
Proof.
  destruct (hmap_make xs hw) as (ls & hw1 & Hms & Hsub & Hw & Hrds).
  unfold new_list. rewrite (hbind_Some _ _ _ _ _ Hms).
  unfold alloc. eexists _, ls, _. split; [reflexivity |]. simpl.
  assert (Hfresh : heap hw1 !! fresh (dom (heap hw1)) = None)
    by (apply not_elem_of_dom, is_fresh).
  split; [| split; [| split]].
  - etrans; [exact Hsub |]. apply insert_subseteq. exact Hfresh.
  - exact Hw.
  - apply lookup_insert_eq.
  - eapply Forall2_read_grows; [| exact Hrds].
    intros l x Hl. eapply rd_mono; [| exact Hl].
    apply insert_subseteq. exact Hfresh.
Qed.

End NewList.

Lemma Forall2_weaken {X Y : Type} (P Q : X -> Y -> Prop)
                     (xs : list X) (ys : list Y) :
  (forall x y, P x y -> Q x y) -> Forall2 P xs ys -> Forall2 Q xs ys.
Proof. intros HPQ H. induction H; constructor; auto. Qed.

Lemma read_node_mono h h' (l : loc) (n : Node Props) :
  h ⊆ h' -> read_node h l = Some n -> read_node h' l = Some n.
Proof. intros Hsub. apply (read_node_grows _ ∅). apply subseteq_grows. exact Hsub. Qed.

Lemma read_relationship_mono h h' (l : loc) (r : Relationship Props) :
  h ⊆ h' -> read_relationship h l = Some r -> read_relationship h' l = Some r.
Proof.
  intros Hsub. apply (read_relationship_grows _ ∅). apply subseteq_grows.
  exact Hsub.
Qed.

Lemma grows_weaken (W W' : gset loc) h h' :
  W ⊆ W' -> grows W h h' -> grows W' h h'.
Proof.
  intros HW Hg l o H.
  destruct (Hg l o H) as [H' | (Hin & Hrest)]; [left; exact H' |].
  right. split; [apply HW; exact Hin | exact Hrest].
Qed.

Lemma hchat_spec (p : Purpose) (message : list ChatMessage) hw :
  hchat chat p message hw
  = Some (fst (chat (llm (world hw)) message),
          {| heap := heap hw;
             world :=
               {| llm := snd (chat (llm (world hw)) message);
                  sent := sent (world hw)
                          ++ [ {| purpose := p; messages := message |} ] |} |}).
Proof.
  unfold hchat, llm_chat. destruct (chat (llm (world hw)) message).
  reflexivity.
Qed.

Ltac hstep E := rewrite (hbind_Some _ _ _ _ _ E); cbv beta.

(** One iteration of the loop over the groups: the list at [new_nodes]
    grows as [new_nodes] does in [merge_group], every other object stays. *)
Lemma merge_group_heap_spec (W : gset loc) (new_nodes : loc) hw
      (glocs items : list loc) (g acc : list (Node Props)) :
  new_nodes ∈ W ->
  heap hw !! new_nodes = Some (OList items) ->
  Forall2 (fun l n => read_node (heap hw) l = Some n) items acc ->
  Forall2 (fun l n => read_node (heap hw) l = Some n) glocs g ->
  exists hw' (items' : list loc),
    merge_group_heap json_dumps chat nconv new_nodes glocs hw = Some (tt, hw') /\
    grows W (heap hw) (heap hw') /\
    heap hw' !! new_nodes = Some (OList items') /\
    Forall2 (fun l n => read_node (heap hw') l = Some n) items'
            (fst (merge_group json_dumps chat nconv acc g (world hw))) /\
    world hw' = snd (merge_group json_dumps chat nconv acc g (world hw)).
Proof.
  intros HW Hnew Hacc Hg.
  set (l1 := fresh (dom (heap hw))).
  set (hw1 := {| heap := <[l1 := OList glocs]> (heap hw); world := world hw |}).
  assert (Hl1 : heap hw !! l1 = None) by (apply not_elem_of_dom, is_fresh).
  assert (Hsub1 : heap hw ⊆ heap hw1) by (apply insert_subseteq; exact Hl1).
  assert (Halloc : alloc (OList glocs) hw = Some (l1, hw1)) by reflexivity.
  assert (Hget1 : get_list l1 hw1 = Some (glocs, hw1))
    by (apply get_list_spec; apply lookup_insert_eq).
  assert (Hnew1 : heap hw1 !! new_nodes = Some (OList items))
    by (eapply lookup_weaken; eassumption).
  assert (Hlen : length glocs = length g)
    by (eapply Forall2_length; eassumption).
  unfold merge_group_heap. hstep Halloc. hstep Hget1.
  destruct (Nat.eqb (length glocs) 1) eqn:E.
  - apply Nat.eqb_eq in E.
    rewrite merge_group_single by congruence. cbn [fst snd].
    unfold list_extend. hstep (get_list_spec _ _ _ Hnew1). unfold store.
    set (hfinal := <[new_nodes := OList (items ++ glocs)]> (heap hw1)).
    assert (Hgr : grows W (heap hw) hfinal).
    { eapply grows_trans; [apply subseteq_grows; exact Hsub1 |].
      eapply grows_store_list; eassumption. }
    eexists _, (items ++ glocs). split; [reflexivity |]. cbn [heap world].
    split; [exact Hgr |]. split; [apply lookup_insert_eq |].
    split; [| reflexivity].
    apply Forall2_app.
    + eapply Forall2_weaken; [| exact Hacc].
      intros l n Hl. exact (read_node_grows _ _ _ _ _ _ Hgr Hl).
    + eapply Forall2_weaken; [| exact Hg].
      intros l n Hl. exact (read_node_grows _ _ _ _ _ _ Hgr Hl).
  - apply Nat.eqb_neq in E.
    assert (Hreads : Forall2 (fun l x => get_node l hw1 = Some (x, hw1)) glocs g).
    { eapply Forall2_weaken; [| exact Hg]. intros l n Hl.
      apply get_node_spec. eapply read_node_mono; eassumption. }
    hstep (hmap_read get_node (node_line json_dumps) hw1 glocs g Hreads).
    rewrite fold_left_append_map, fold_left_append.
    rewrite merge_group_multi by congruence. cbn [fst snd].
    change (String.append EmptyString
              (join_strings (map (node_line json_dumps) g)))
      with (group_text json_dumps g).
    change [ {| role := SYSTEM;
                content := generate_system_message_for_relationships |};
             {| role := USER; content := group_text json_dumps g |} ]
      with (messages (merge_request json_dumps g)).
    set (message := messages (merge_request json_dumps g)).
    hstep (hchat_spec MergeNodes message hw1). cbn [heap world].
    change (world hw1) with (world hw).
    set (answer := fst (chat (llm (world hw)) message)).
    set (hw3 := Build_HWorld _ _).
    destruct (new_list_spec new_node read_node new_node_spec read_node_mono
                (nconv (findall answer)) hw3)
      as (l4 & ls & hw4 & Hnl & Hsub4 & Hw4 & Hl4 & Hls).
    hstep Hnl. hstep (get_list_spec _ _ _ Hl4).
    assert (Hnew4 : heap hw4 !! new_nodes = Some (OList items))
      by (eapply lookup_weaken; [exact Hnew1 | exact Hsub4]).
    unfold list_extend. hstep (get_list_spec _ _ _ Hnew4). unfold store.
    set (hfinal := <[new_nodes := OList (items ++ ls)]> (heap hw4)).
    assert (Hgr4 : grows W (heap hw4) hfinal)
      by (eapply grows_store_list; eassumption).
    assert (Hgr : grows W (heap hw) hfinal).
    { eapply grows_trans; [apply subseteq_grows; exact Hsub1 |].
      eapply grows_trans; [apply subseteq_grows; exact Hsub4 | exact Hgr4]. }
    eexists _, (items ++ ls). split; [reflexivity |]. cbn [heap world].
    split; [exact Hgr |]. split; [apply lookup_insert_eq |].
    split; [| rewrite Hw4; reflexivity].
    apply Forall2_app.
    + eapply Forall2_weaken; [| exact Hacc].
      intros l n Hl. exact (read_node_grows _ _ _ _ _ _ Hgr Hl).
    + eapply Forall2_weaken; [| exact Hls].
      intros l n Hl. exact (read_node_grows _ _ _ _ _ _ Hgr4 Hl).
Qed.

(** The loop over the groups. *)
Lemma merge_loop_spec (W : gset loc) (new_nodes : loc)
      (groups_h : list (string * list (loc * string))) :
  new_nodes ∈ W ->
  forall (groups_p : list (string * list (Node Props))) hw
         (items : list loc) (acc : list (Node Props)),
    heap hw !! new_nodes = Some (OList items) ->
    Forall2 (fun l n => read_node (heap hw) l = Some n) items acc ->
    Forall2 (fun gh gp =>
               Forall2 (fun l n => read_node (heap hw) l = Some n)
                       (map fst (snd gh)) (snd gp))
            groups_h groups_p ->
    exists hw' (items' : list loc),
      hiter (fun group =>
               merge_group_heap json_dumps chat nconv new_nodes
                                (map fst (snd group)))
            groups_h hw = Some (tt, hw') /\
      grows W (heap hw) (heap hw') /\
      heap hw' !! new_nodes = Some (OList items') /\
      Forall2 (fun l n => read_node (heap hw') l = Some n) items'
              (fst (merge_groups json_dumps chat nconv groups_p acc (world hw))) /\
      world hw' = snd (merge_groups json_dumps chat nconv groups_p acc (world hw)).
Proof.
  intros HW. induction groups_h as [| gh groups_h IH];
    intros groups_p hw items acc Hnew Hacc Hgs;
    inversion Hgs as [| gh' gp ghs gps Hg Hrest]; subst.
  - exists hw, items. split; [reflexivity |]. split; [apply grows_refl |].
    split; [exact Hnew |]. split; [exact Hacc | reflexivity].
  - destruct (merge_group_heap_spec W new_nodes hw _ items (snd gp) acc
                HW Hnew Hacc Hg)
      as (hw1 & items1 & Hrun1 & Hgr1 & Hnew1 & Hacc1 & Hw1).
    simpl. unfold bind.
    destruct (merge_group json_dumps chat nconv acc (snd gp) (world hw))
      as [acc1 w1] eqn:Epure.
    cbn [fst snd] in Hacc1, Hw1.
    assert (Hrest1 : Forall2 (fun gh0 gp0 =>
               Forall2 (fun l n => read_node (heap hw1) l = Some n)
                       (map fst (snd gh0)) (snd gp0)) groups_h gps).
    { eapply Forall2_weaken; [| exact Hrest]. intros gh0 gp0 H0.
      eapply Forall2_weaken; [| exact H0]. intros l n Hl.
      eapply read_node_grows; eassumption. }
    destruct (IH gps hw1 items1 acc1 Hnew1 Hacc1 Hrest1)
      as (hw2 & items2 & Hrun2 & Hgr2 & Hnew2 & Hacc2 & Hw2).
    rewrite Hw1 in Hacc2, Hw2.
    exists hw2, items2. split; [| split; [| split; [| split]]].
    + hstep Hrun1. exact Hrun2.
    + eapply grows_trans; eassumption.
    + exact Hnew2.
    + exact Hacc2.
    + exact Hw2.
Qed.

Lemma list_extend_spec hw (l : loc) (items more : list loc) :
  heap hw !! l = Some (OList items) ->
  list_extend l more hw
  = Some (tt, {| heap := <[l := OList (items ++ more)]> (heap hw);
                 world := world hw |}).
Proof.
  intros E. unfold list_extend. hstep (get_list_spec _ _ _ E). reflexivity.
Qed.

Lemma Forall2_map_l {X Y Z : Type} (f : X -> Y) (P : Y -> Z -> Prop)
                    (xs : list X) (zs : list Z) :
  Forall2 (fun x z => P (f x) z) xs zs -> Forall2 P (map f xs) zs.
Proof. induction 1; simpl; constructor; auto. Qed.

(** [run_heap] computes what [run] computes, and touches no object that
    existed before the call: on a store where [data] reads back as the
    fragment [frag], it returns; every object of the store is still there
    unchanged; the mapping it returns is a new object that reads back as
    the result of [run] on [frag]; and the language model has received
    the requests of [run]. *)
Lemma run_heap_refines (data : loc) hw (frag : Fragment Props) :
  read_fragment (heap hw) data = Some frag ->
  exists (result : loc) hw',
    run_heap json_dumps chat nconv rconv data hw = Some (result, hw') /\
    heap hw ⊆ heap hw' /\
    heap hw !! result = None /\
    (exists new_nodes new_relationships : loc,
        heap hw' !! result = Some (OData new_nodes new_relationships) /\
        heap hw !! new_nodes = None /\
        heap hw !! new_relationships = None) /\
    read_fragment (heap hw') result
    = Some (fst (run json_dumps chat nconv rconv frag (world hw))) /\
    world hw' = snd (run json_dumps chat nconv rconv frag (world hw)).
Proof.
  intros Hfrag. unfold read_fragment in Hfrag.
  destruct (heap hw !! data) as [[| | | | nl rl] |] eqn:Edata;
    try discriminate.
  destruct (heap hw !! nl) as [[| | | nlocs |] |] eqn:Enl; try discriminate.
  destruct (heap hw !! rl) as [[| | | rlocs |] |] eqn:Erl; try discriminate.
  destruct (option_map_list (read_node (heap hw)) nlocs) as [ns |] eqn:Ens;
    try discriminate.
  destruct (option_map_list (read_relationship (heap hw)) rlocs)
    as [rs |] eqn:Ers; try discriminate.
  inversion Hfrag; subst frag. clear Hfrag.
  apply option_map_list_Forall2 in Ens. apply option_map_list_Forall2 in Ers.
  rewrite run_phases. cbv zeta. unfold node_groups_of.
  cbn [fst snd nodes relationships].
  (* the reads before the loop *)
  assert (Hd : get_data data hw = Some ((nl, rl), hw)).
  { unfold get_data. hstep (load_spec _ _ _ Edata). reflexivity. }
  destruct (hmap_label_key hw nlocs ns Ens) as (keyed & Hkeyed & Hrel).
  set (R := fun (kl : loc * string) (n : Node Props) =>
              read_node (heap hw) (fst kl) = Some n /\ snd kl = label n).
  assert (Hagree : forall kl n, R kl n -> snd kl = label n)
    by (intros kl n [_ H]; exact H).
  pose proof (sorted_Forall2 R snd label Hagree _ _ Hrel) as Hsorted.
  pose proof (groupby_Forall2 R snd label Hagree _ _ Hsorted) as Hgroups.
  unfold run_heap. cbv zeta.
  hstep Hd. cbn [fst snd]. hstep (get_list_spec _ _ _ Enl). hstep Hkeyed.
  (* the three new lists *)
  set (la := fresh (dom (heap hw))).
  set (hwa := {| heap := <[la := OList (map fst (sorted snd keyed))]> (heap hw);
                 world := world hw |}).
  set (ln := fresh (dom (heap hwa))).
  set (hwn := {| heap := <[ln := OList []]> (heap hwa); world := world hw |}).
  set (lr := fresh (dom (heap hwn))).
  set (hwr := {| heap := <[lr := OList []]> (heap hwn); world := world hw |}).
  assert (Hla : heap hw !! la = None) by (apply not_elem_of_dom, is_fresh).
  assert (Hln : heap hwa !! ln = None) by (apply not_elem_of_dom, is_fresh).
  assert (Hlr : heap hwn !! lr = None) by (apply not_elem_of_dom, is_fresh).
  assert (Hsuba : heap hw ⊆ heap hwa) by (apply insert_subseteq; exact Hla).
  assert (Hsubn : heap hwa ⊆ heap hwn) by (apply insert_subseteq; exact Hln).
  assert (Hsubr : heap hwn ⊆ heap hwr) by (apply insert_subseteq; exact Hlr).
  assert (Hsub2 : heap hw ⊆ heap hwn) by (etrans; [exact Hsuba | exact Hsubn]).
  assert (Hsub3 : heap hw ⊆ heap hwr) by (etrans; [exact Hsub2 | exact Hsubr]).
  assert (Hln0 : heap hw !! ln = None)
    by (eapply lookup_weaken_None; [exact Hln | exact Hsuba]).
  assert (Hlr0 : heap hw !! lr = None).
  { eapply lookup_weaken_None; [exact Hlr | exact Hsub2]. }
  assert (Hne : lr <> ln).
  { intros E. rewrite E in Hlr. unfold hwn in Hlr. cbn [heap] in Hlr.
    rewrite lookup_insert_eq in Hlr. discriminate. }
  assert (Hlnr : heap hwr !! ln = Some (OList [])).
  { unfold hwr, hwn. cbn [heap]. rewrite lookup_insert_ne by exact Hne.
    apply lookup_insert_eq. }
  assert (Hlrr : heap hwr !! lr = Some (OList [])).
  { unfold hwr. cbn [heap]. apply lookup_insert_eq. }
  assert (Ha : alloc (OList (map fst (sorted snd keyed))) hw = Some (la, hwa))
    by reflexivity.
  assert (Hn : alloc (OList []) hwa = Some (ln, hwn)) by reflexivity.
  assert (Hr : alloc (OList []) hwn = Some (lr, hwr)) by reflexivity.
  hstep Ha. hstep Hn. hstep Hr.
  (* the loop over the groups *)
  assert (Hgroups' :
            Forall2 (fun gh gp =>
                       Forall2 (fun l n => read_node (heap hwr) l = Some n)
                               (map fst (snd gh)) (snd gp))
                    (groupby snd (sorted snd keyed))
                    (groupby label (sorted label ns))).
  { eapply Forall2_weaken; [| exact Hgroups]. intros gh gp [_ Hg].
    apply Forall2_map_l. eapply Forall2_weaken; [| exact Hg].
    intros kl n [Hkl _]. eapply read_node_mono; eassumption. }
  assert (HW : ln ∈ ({[ln]} : gset loc)) by set_solver.
  destruct (merge_loop_spec {[ln]} ln _ HW _ hwr [] [] Hlnr
              (List.Forall2_nil _) Hgroups')
    as (hw4 & items4 & Hloop & Hgr4 & Hln4 & Hacc4 & Hw4).
  change (world hwr) with (world hw) in Hacc4, Hw4.
  set (merged := merge_groups json_dumps chat nconv
                   (groupby label (sorted label ns)) [] (world hw)) in *.
  hstep Hloop.
  (* the relationship text *)
  assert (Hgr04 : grows {[ln]} (heap hw) (heap hw4)).
  { eapply grows_trans; [apply subseteq_grows; exact Hsub3 | exact Hgr4]. }
  assert (Hrl4 : heap hw4 !! rl = Some (OList rlocs)).
  { eapply grows_keep; [exact Hgr04 | | exact Erl].
    intros Hin. apply elem_of_singleton in Hin. subst rl. congruence. }
  assert (Hlr4 : heap hw4 !! lr = Some (OList [])).
  { eapply grows_keep; [exact Hgr4 | | exact Hlrr].
    intros Hin. apply elem_of_singleton in Hin. contradiction. }
  assert (Hrels : Forall2 (fun l x => get_relationship l hw4 = Some (x, hw4))
                          rlocs rs).
  { eapply Forall2_weaken; [| exact Ers]. intros l r Hl.
    apply get_relationship_spec. eapply read_relationship_grows; eassumption. }
  assert (Hnames : Forall2 (fun l x => get_node l hw4 = Some (x, hw4))
                           items4 (fst merged)).
  { eapply Forall2_weaken; [| exact Hacc4]. intros l n Hl.
    apply get_node_spec. exact Hl. }
  hstep (get_list_spec _ _ _ Hrl4).
  hstep (hmap_read get_relationship (relationship_line json_dumps)
                   hw4 rlocs rs Hrels).
  hstep (get_list_spec _ _ _ Hln4).
  hstep (hmap_read get_node name hw4 items4 (fst merged) Hnames).
  rewrite fold_left_append_map.
  change (String.append
            (fold_left (fun acc x =>
                          String.append acc (relationship_line json_dumps x))
                       rs (String.append "Relationships:" NL))
            (String.append (String.append "Valid Nodes:" NL)
                           (String.concat NL (map name (fst merged)))))
    with (relationship_data_of json_dumps rs (fst merged)).
  rewrite relationship_data_text.
  change [ {| role := SYSTEM;
              content := generate_system_message_for_relationships |};
           {| role := USER;
              content := generate_prompt
                           (relationships_text json_dumps rs (fst merged)) |} ]
    with (messages (validation_request json_dumps rs (fst merged))).
  set (message := messages (validation_request json_dumps rs (fst merged))).
  (* the validation call and its records *)
  hstep (hchat_spec ValidateRelationships message hw4). rewrite Hw4.
  set (answer := fst (chat (llm (snd merged)) message)).
  set (hw5 := Build_HWorld _ _).
  destruct (new_list_spec new_relationship read_relationship
              new_relationship_spec read_relationship_mono
              (rconv (findall answer)) hw5)
    as (l6 & ls6 & hw6 & Hnl6 & Hsub6 & Hw6 & Hl6 & Hls6).
  hstep Hnl6. hstep (get_list_spec _ _ _ Hl6).
  assert (Hlr6 : heap hw6 !! lr = Some (OList []))
    by (eapply lookup_weaken; [exact Hlr4 | exact Hsub6]).
  assert (Hln6 : heap hw6 !! ln = Some (OList items4))
    by (eapply lookup_weaken; [exact Hln4 | exact Hsub6]).
  hstep (list_extend_spec hw6 lr [] ls6 Hlr6).
  set (hw7 := Build_HWorld _ _).
  unfold alloc.
  set (l7 := fresh (dom (heap hw7))).
  assert (Hl7 : heap hw7 !! l7 = None) by (apply not_elem_of_dom, is_fresh).
  (* nothing that existed has changed *)
  assert (Hgr67 : grows {[lr]} (heap hw6) (heap hw7)).
  { unfold hw7. cbn [heap]. eapply grows_store_list; [set_solver | exact Hlr6]. }
  assert (Hgr47 : grows {[lr]} (heap hw4) (heap hw7)).
  { eapply grows_trans; [apply subseteq_grows; exact Hsub6 | exact Hgr67]. }
  assert (Hgr07 : grows {[ln; lr]} (heap hw) (heap hw7)).
  { eapply grows_trans.
    - eapply grows_weaken; [| exact Hgr04]. set_solver.
    - eapply grows_weaken; [| exact Hgr47]. set_solver. }
  assert (Hsub07 : heap hw ⊆ heap hw7).
  { eapply grows_frame; [| exact Hgr07]. intros l Hin.
    apply elem_of_union in Hin. destruct Hin as [Hin | Hin];
      apply elem_of_singleton in Hin; subst l; assumption. }
  assert (Hsub7 : heap hw7 ⊆ <[l7 := OData ln lr]> (heap hw7))
    by (apply insert_subseteq; exact Hl7).
  assert (Hgr4' : grows {[lr]} (heap hw4) (<[l7 := OData ln lr]> (heap hw7))).
  { eapply grows_trans; [exact Hgr47 | apply subseteq_grows; exact Hsub7]. }
  assert (Hgr6' : grows {[lr]} (heap hw6) (<[l7 := OData ln lr]> (heap hw7))).
  { eapply grows_trans; [exact Hgr67 | apply subseteq_grows; exact Hsub7]. }
  eexists _, _. split; [reflexivity |]. cbn [heap world].
  split; [etrans; [exact Hsub07 | exact Hsub7] |].
  split; [eapply lookup_weaken_None; [exact Hl7 | exact Hsub07] |].
  split.
  { exists ln, lr. split; [apply lookup_insert_eq |].
    split; assumption. }
  split.
  - unfold read_fragment. rewrite lookup_insert_eq.
    assert (Hn7 : l7 <> ln).
    { intros E. rewrite E in Hl7. unfold hw7 in Hl7. cbn [heap] in Hl7.
      rewrite lookup_insert_ne in Hl7 by exact Hne. congruence. }
    assert (Hr7 : l7 <> lr).
    { intros E. rewrite E in Hl7. unfold hw7 in Hl7. cbn [heap] in Hl7.
      rewrite lookup_insert_eq in Hl7. discriminate. }
    rewrite (lookup_insert_ne _ l7 ln) by exact Hn7.
    rewrite (lookup_insert_ne _ l7 lr) by exact Hr7.
    unfold hw7. cbn [heap].
    rewrite (lookup_insert_ne _ lr ln) by exact Hne.
    rewrite Hln6, lookup_insert_eq.
    assert (Hns : option_map_list
                    (read_node (<[l7 := OData ln lr]>
                                  (<[lr := OList ([] ++ ls6)]> (heap hw6))))
                    items4 = Some (fst merged)).
    { apply option_map_list_Forall2.
      eapply Forall2_weaken; [| exact Hacc4]. intros l n Hl.
      exact (read_node_grows _ _ _ _ _ _ Hgr4' Hl). }
    assert (Hrs : option_map_list
                    (read_relationship
                       (<[l7 := OData ln lr]>
                          (<[lr := OList ([] ++ ls6)]> (heap hw6))))
                    ([] ++ ls6) = Some (rconv (findall answer))).
    { apply option_map_list_Forall2.
      eapply Forall2_weaken; [| exact Hls6]. intros l r Hl.
      exact (read_relationship_grows _ _ _ _ _ _ Hgr6' Hl). }
    rewrite Hns, Hrs. reflexivity.
  - unfold hw7. cbn [world]. rewrite Hw6. reflexivity.
Qed.

Lemma read_fragment_mono h h' (data : loc) (frag : Fragment Props) :
  h ⊆ h' -> read_fragment h data = Some frag ->
  read_fragment h' data = Some frag.
Proof.
  intros Hsub. unfold read_fragment.
  destruct (h !! data) as [[| | | | nl rl] |] eqn:Edata; try discriminate.
  destruct (h !! nl) as [[| | | nlocs |] |] eqn:Enl; try discriminate.
  destruct (h !! rl) as [[| | | rlocs |] |] eqn:Erl; try discriminate.
  destruct (option_map_list (read_node h) nlocs) as [ns |] eqn:Ens;
    try discriminate.
  destruct (option_map_list (read_relationship h) rlocs) as [rs |] eqn:Ers;
    try discriminate.
  intros Hfrag.
  rewrite (lookup_weaken _ _ _ _ Edata Hsub).
  rewrite (lookup_weaken _ _ _ _ Enl Hsub).
  rewrite (lookup_weaken _ _ _ _ Erl Hsub).
  assert (Hns : option_map_list (read_node h') nlocs = Some ns).
  { apply option_map_list_Forall2. apply option_map_list_Forall2 in Ens.
    eapply Forall2_weaken; [| exact Ens]. intros l n Hl.
    eapply read_node_mono; eassumption. }
  assert (Hrs : option_map_list (read_relationship h') rlocs = Some rs).
  { apply option_map_list_Forall2. apply option_map_list_Forall2 in Ers.
    eapply Forall2_weaken; [| exact Ers]. intros l r Hl.
    eapply read_relationship_mono; eassumption. }
  rewrite Hns, Hrs. exact Hfrag.
Qed.

(** C10. [run] changes nothing of its input.  On a store where [data]
    holds a fragment, the call returns, and afterwards every object that
    was in the store is still there as it was: the input mapping, its two
    lists, every node and relationship record and every [properties]
    mapping, so that [data] reads back as the same fragment.  The mapping
    returned and its two lists are objects made by the call, and they hold
    the result of [run] on that fragment. *)
Theorem run_keeps_its_input (data : loc) hw (frag : Fragment Props) :
  read_fragment (heap hw) data = Some frag ->
  exists (result : loc) hw',
    run_heap json_dumps chat nconv rconv data hw = Some (result, hw') /\
    (forall (l : loc) (o : obj Props),
        heap hw !! l = Some o -> heap hw' !! l = Some o) /\
    read_fragment (heap hw') data = Some frag /\
    heap hw !! result = None /\
    (exists new_nodes new_relationships : loc,
        heap hw' !! result = Some (OData new_nodes new_relationships) /\
        heap hw !! new_nodes = None /\
        heap hw !! new_relationships = None) /\
    read_fragment (heap hw') result
    = Some (fst (run json_dumps chat nconv rconv frag (world hw))).
Proof.
  intros Hfrag.
  destruct (run_heap_refines data hw frag Hfrag)
    as (result & hw' & Hrun & Hsub & Hres & Hnew & Hout & _).
  exists result, hw'. split; [exact Hrun |].
  split; [intros l o Hl; eapply lookup_weaken; eassumption |].
  split; [eapply read_fragment_mono; eassumption |].
  split; [exact Hres |]. split; [exact Hnew | exact Hout].
Qed.

End StoreRun.

(** ** The properties on the examples *)

Example findall_two_records :
  findall (py "Merged: [`alice`, `Person`, {}] and [`acme`, `Organization`, {}].")
  = [py "`alice`, `Person`, {}"; py "`acme`, `Organization`, {}"].
Proof. reflexivity. Qed.

Example findall_stops_at_newline :
  findall (String.append "[open" (String.append NL "close] [kept]")) = ["kept"].
Proof. reflexivity. Qed.

Example groups_of_three_nodes :
  groupby label (sorted label [Example.alice; Example.acme; Example.alice2])
  = [ ("Organization", [Example.acme]);
      ("Person", [Example.alice; Example.alice2]) ].
Proof. reflexivity. Qed.

Example run_two_persons :
  fst (Example.run Example.two_persons
         (Example.start_world ["[alice]"; "nothing to keep"]))
  = {| nodes := [ {| name := "alice"; label := "Person"; properties := "{}" |} ];
       relationships := [] |}.
Proof. reflexivity. Qed.

(** C1. On two nodes with the same label, the request sent for merging
    them carries the text of [generate_system_message_for_relationships]
    as its system message, and that text is not the node-merging
    instruction of [generate_system_message_for_nodes]. *)
Theorem merge_system_message_on_two_persons :
  map (contents_of SYSTEM)
      (requests_for MergeNodes
         (issued (Example.start_world ["[alice]"])
                 (snd (Example.run Example.two_persons
                                   (Example.start_world ["[alice]"])))))
  = [ [ generate_system_message_for_relationships ] ] /\
  generate_system_message_for_relationships
  <> generate_system_message_for_nodes.
Proof.
  split.
  - vm_compute. reflexivity.
  - intros H. vm_compute in H. discriminate H.
Qed.

(** C5, as stated, fails: on a fragment with one relationship the user
    message of the validation request is not the relationship text alone,
    it starts with the line [ Here is the data:] of [generate_prompt]. *)
Lemma validation_user_message_is_wrapped :
  map (contents_of USER)
      (requests_for ValidateRelationships
         (issued (Example.start_world [])
                 (snd (Example.run Example.distinct_labels
                                   (Example.start_world [])))))
  <> [ [ relationships_text Example.json_dumps
           (relationships Example.distinct_labels)
           (nodes (fst (Example.run Example.distinct_labels
                                    (Example.start_world [])))) ] ].
Proof.
  intros H. vm_compute in H. discriminate H.
Qed.

(** C2 on a fragment with a person and an organization. *)
Lemma distinct_labels_pass_through_witness :
  List.NoDup (map label (nodes Example.distinct_labels)) /\
  (requests_for MergeNodes
     (issued (Example.start_world [])
             (snd (Example.run Example.distinct_labels
                               (Example.start_world [])))) = [] /\
   nodes (fst (Example.run Example.distinct_labels (Example.start_world [])))
   = sorted label (nodes Example.distinct_labels) /\
   Permutation (nodes Example.distinct_labels)
     (nodes (fst (Example.run Example.distinct_labels
                              (Example.start_world [])))) /\
   StronglySorted (le_key label)
     (nodes (fst (Example.run Example.distinct_labels
                              (Example.start_world [])))) /\
   (forall k,
       List.filter (same_key label k)
         (nodes (fst (Example.run Example.distinct_labels
                                  (Example.start_world []))))
       = List.filter (same_key label k) (nodes Example.distinct_labels))).
Proof.
  assert (Hnd : List.NoDup (map label (nodes Example.distinct_labels))).
  { simpl. constructor.
    - simpl. intros [H | []]. discriminate H.
    - constructor; [intros [] | constructor]. }
  split; [exact Hnd |].
  exact (distinct_labels_pass_through
           Example.Props Example.json_dumps Example.LLM Example.chat
           Example.nodes_of_tokens Example.relationships_of_tokens
           Example.distinct_labels (Example.start_world []) Hnd).
Defined.

(** C6 on an answer that holds no bracket: the merging of two persons
    adds nothing to the list built so far, the validation gives no
    relationship. *)
Lemma no_match_empty_result_witness :
  ~ has_match Example.refusal /\
  Example.nodes_of_tokens [] = [] /\
  Example.relationships_of_tokens [] = [] /\
  findall Example.refusal = [] /\
  fst (merge_group Example.json_dumps Example.chat Example.nodes_of_tokens
         [Example.acme] [Example.alice; Example.alice2]
         (Example.start_world [Example.refusal]))
  = [Example.acme] /\
  relationships (fst (Example.run Example.distinct_labels
                                  (Example.start_world [Example.refusal])))
  = [].
Proof.
  assert (Hno : ~ has_match Example.refusal).
  { intros H. apply has_match_b_complete in H. vm_compute in H.
    discriminate H. }
  destruct (no_match_empty_result
              Example.Props Example.json_dumps Example.LLM Example.chat
              Example.nodes_of_tokens Example.relationships_of_tokens
              Example.refusal Hno eq_refl eq_refl)
    as (Hfind & Hmerge & Hvalidate).
  split; [exact Hno |]. split; [reflexivity |]. split; [reflexivity |].
  split; [exact Hfind |]. split.
  - apply Hmerge; [simpl; lia | reflexivity].
  - apply Hvalidate. reflexivity.
Defined.

(** C9 with a language model whose answer is always the same, started
    after 0 and after 7 calls. *)
Lemma run_deterministic_witness :
  (forall (l l' : nat) (message : list ChatMessage),
      fst (Example.constant_chat l message)
      = fst (Example.constant_chat l' message)) /\
  (issued {| llm := 0; sent := [] |}
     (snd (run Example.json_dumps Example.constant_chat
               Example.nodes_of_tokens Example.relationships_of_tokens
               Example.two_persons {| llm := 0; sent := [] |}))
   = issued {| llm := 7; sent := [] |}
       (snd (run Example.json_dumps Example.constant_chat
                 Example.nodes_of_tokens Example.relationships_of_tokens
                 Example.two_persons {| llm := 7; sent := [] |})) /\
   fst (run Example.json_dumps Example.constant_chat
            Example.nodes_of_tokens Example.relationships_of_tokens
            Example.two_persons {| llm := 0; sent := [] |})
   = fst (run Example.json_dumps Example.constant_chat
              Example.nodes_of_tokens Example.relationships_of_tokens
              Example.two_persons {| llm := 7; sent := [] |})).
Proof.
  assert (Hdet : forall (l l' : nat) (message : list ChatMessage),
             fst (Example.constant_chat l message)
             = fst (Example.constant_chat l' message))
    by (intros l l' message; reflexivity).
  split; [exact Hdet |].
  exact (run_deterministic
           Example.Props Example.json_dumps nat Example.constant_chat
           Example.nodes_of_tokens Example.relationships_of_tokens
           Example.two_persons {| llm := 0; sent := [] |}
           {| llm := 7; sent := [] |} Hdet).
Defined.

(** C10 on the store that holds two persons. *)
Lemma run_keeps_its_input_witness :
  read_fragment (heap (Example.two_persons_store ["[alice]"])) 7%positive
  = Some Example.two_persons /\
  exists (result : loc) (hw' : HWorld Example.Props Example.LLM),
    run_heap Example.json_dumps Example.chat Example.nodes_of_tokens
             Example.relationships_of_tokens 7%positive
             (Example.two_persons_store ["[alice]"])
    = Some (result, hw') /\
    (forall (l : loc) (o : obj Example.Props),
        heap (Example.two_persons_store ["[alice]"]) !! l = Some o ->
        heap hw' !! l = Some o) /\
    read_fragment (heap hw') 7%positive = Some Example.two_persons /\
    heap (Example.two_persons_store ["[alice]"]) !! result = None /\
    (exists new_nodes new_relationships : loc,
        heap hw' !! result = Some (OData new_nodes new_relationships) /\
        heap (Example.two_persons_store ["[alice]"]) !! new_nodes = None /\
        heap (Example.two_persons_store ["[alice]"]) !! new_relationships
        = None) /\
    read_fragment (heap hw') result
    = Some (fst (run Example.json_dumps Example.chat Example.nodes_of_tokens
                     Example.relationships_of_tokens Example.two_persons
                     (world (Example.two_persons_store ["[alice]"])))).
Proof.
  assert (Hread : read_fragment (heap (Example.two_persons_store ["[alice]"]))
                                7%positive
                  = Some Example.two_persons)
    by (vm_compute; reflexivity).
  split; [exact Hread |].
  exact (run_keeps_its_input
           Example.Props Example.json_dumps Example.LLM Example.chat
           Example.nodes_of_tokens Example.relationships_of_tokens
           7%positive (Example.two_persons_store ["[alice]"])
           Example.two_persons Hread).
Defined.

(** * Further properties *)

(** ** The tokens of the bracket scan *)

Lemma mem_char_append (c : ascii) (a b : string) :
  mem_char c (String.append a b) = mem_char c a || mem_char c b.
Proof.
  induction a as [| x a IH]; [reflexivity |].
  rewrite append_cons. simpl. rewrite IH. apply orb_assoc.
Qed.

Lemma token_safe_append (a b : string) :
  token_safe (String.append a b) = token_safe a && token_safe b.
Proof.
  unfold token_safe. rewrite !mem_char_append.
  destruct (mem_char "]"%char a), (mem_char "]"%char b),
    (mem_char newline a), (mem_char newline b); reflexivity.
Qed.

Lemma token_safe_cons (c : ascii) (s : string) :
  token_safe (String c s) = true ->
  Ascii.eqb c "]"%char = false /\ Ascii.eqb c newline = false
  /\ token_safe s = true.
Proof.
  unfold token_safe. simpl.
  destruct (Ascii.eqb c "]"%char), (Ascii.eqb c newline); simpl;
    intros H; try discriminate H;
    try (rewrite andb_false_r in H; discriminate H).
  split; [reflexivity |]. split; [reflexivity | exact H].
Qed.

Lemma scan_close_token_safe (s m : string) :
  scan_close s = Some m -> token_safe m = true.
Proof.
  revert m. induction s as [| c s IH]; intros m H; simpl in H; [discriminate |].
  destruct (Ascii.eqb c "]"%char) eqn:Ec.
  - inversion H. reflexivity.
  - destruct (Ascii.eqb c newline) eqn:En; [discriminate |].
    destruct (scan_close s) as [m0 |]; [| discriminate].
    inversion H; subst m. specialize (IH m0 eq_refl).
    unfold token_safe in *. simpl. rewrite Ec, En. exact IH.
Qed.

Lemma scan_close_exact (tok post : string) :
  token_safe tok = true ->
  scan_close (String.append tok (String "]"%char post)) = Some tok.
Proof.
  induction tok as [| c tok IH]; intros H; [reflexivity |].
  apply token_safe_cons in H. destruct H as (Hc & Hn & Hs).
  rewrite append_cons. simpl. rewrite Hc, Hn, (IH Hs). reflexivity.
Qed.

Lemma findall_from_skip (a b : string) (k : nat) :
  findall_from (String.length a + k) (String.append a b) = findall_from k b.
Proof.
  induction a as [| c a IH]; [reflexivity |].
  rewrite append_cons. simpl. exact IH.
Qed.

Lemma findall_from_sound (s : string) :
  forall (skip : nat) (m : string),
    In m (findall_from skip s) ->
    token_safe m = true /\
    exists pre post,
      s = String.append pre (String "["%char
                                (String.append m (String "]"%char post))).
Proof.
  induction s as [| c s IH]; intros skip m Hin; [destruct Hin |].
  assert (Hlater : In m (findall_from 0 s) \/
                   (exists k, In m (findall_from k s)) ->
                   token_safe m = true /\
                   exists pre post,
                     String c s
                     = String.append pre
                         (String "["%char
                            (String.append m (String "]"%char post)))).
  { intros Hm.
    assert (Hk : exists k, In m (findall_from k s))
      by (destruct Hm as [Hm | Hm]; [exists 0; exact Hm | exact Hm]).
    destruct Hk as (k & Hk).
    destruct (IH k m Hk) as (Hsafe & pre & post & Hs).
    split; [exact Hsafe |]. exists (String c pre), post.
    rewrite append_cons, <- Hs. reflexivity. }
  simpl in Hin. destruct skip as [| k].
  - destruct (Ascii.eqb c "["%char) eqn:Ec.
    + destruct (scan_close s) as [m0 |] eqn:Es.
      * destruct Hin as [<- | Hin].
        -- split; [eapply scan_close_token_safe; exact Es |].
           apply Ascii.eqb_eq in Ec. subst c.
           destruct (scan_close_sound _ _ Es) as (post & Hs & _).
           exists EmptyString, post. rewrite append_empty_l, <- Hs.
           reflexivity.
        -- apply Hlater. right. eexists. exact Hin.
      * apply Hlater. left. exact Hin.
    + apply Hlater. left. exact Hin.
  - apply Hlater. right. eexists. exact Hin.
Qed.

Lemma has_match_b_findall (text : string) :
  has_match_b text = true -> findall_from 0 text <> [].
Proof.
  induction text as [| c s IH]; simpl; [discriminate |].
  intros H. destruct (Ascii.eqb c "["%char); simpl in H.
  - destruct (scan_close s); [discriminate | exact (IH H)].
  - exact (IH H).
Qed.

Lemma findall_no_open (a b : string) :
  mem_char "["%char a = false ->
  findall_from 0 (String.append a b) = findall_from 0 b.
Proof.
  induction a as [| c a IH]; intros H; [reflexivity |].
  simpl in H. apply orb_false_iff in H. destruct H as [Hc Ha].
  rewrite append_cons. simpl. rewrite Hc. exact (IH Ha).
Qed.

(** A bracketed token on a line of its own is found, and the scan goes
    on after the line. *)
Lemma findall_bracketed_line (tok rest : string) :
  token_safe tok = true ->
  findall (String "["%char
             (String.append tok (String "]"%char (String newline rest))))
  = tok :: findall rest.
Proof.
  intros H. unfold findall. simpl.
  rewrite (scan_close_exact tok _ H). f_equal.
  replace (S (String.length tok)) with (String.length tok + 1) by lia.
  rewrite findall_from_skip. reflexivity.
Qed.

Lemma join_strings_cons (l : string) (ls : list string) :
  join_strings (l :: ls) = String.append l (join_strings ls).
Proof. reflexivity. Qed.

Lemma findall_bracketed_lines (toks : list string) (rest : string) :
  Forall (fun tok => token_safe tok = true) toks ->
  findall (String.append
             (join_strings
                (map (fun tok =>
                        String "["%char
                          (String.append tok (String "]"%char NL))) toks))
             rest)
  = toks ++ findall rest.
Proof.
  induction 1 as [| tok toks Htok Htoks IH]; [reflexivity |].
  rewrite map_cons, join_strings_cons, append_assoc, append_cons, append_assoc.
  unfold NL at 1. rewrite !append_cons, append_empty_l.
  rewrite (findall_bracketed_line tok _ Htok), IH. reflexivity.
Qed.

Lemma mem_char_concat (c : ascii) (sep : string) (ls : list string) :
  mem_char c sep = false ->
  Forall (fun s => mem_char c s = false) ls ->
  mem_char c (String.concat sep ls) = false.
Proof.
  intros Hsep. induction 1 as [| s ls Hs Hls IH]; [reflexivity |].
  simpl. destruct ls as [| s' ls']; [exact Hs |].
  rewrite !mem_char_append, Hs, Hsep, IH. reflexivity.
Qed.

(** X1. Every token of the scan stood between a [[] and a []] of the
    text, and holds neither a []] nor a newline: a bracketed record is cut
    at its first closing bracket. *)
Theorem findall_tokens (text m : string) :
  In m (findall text) ->
  mem_char "]"%char m = false /\ mem_char newline m = false /\
  exists pre post,
    text = String.append pre
             (String.append "[" (String.append m (String.append "]" post))).
Proof.
  intros Hin. destruct (findall_from_sound text 0 m Hin)
    as (Hsafe & pre & post & Htext).
  unfold token_safe in Hsafe. apply andb_true_iff in Hsafe.
  destruct Hsafe as [Hc Hn].
  apply negb_true_iff in Hc. apply negb_true_iff in Hn.
  split; [exact Hc |]. split; [exact Hn |].
  exists pre, post. exact Htext.
Qed.

(** X2. The scan finds a token exactly when the text has a substring that
    matches the pattern. *)
Theorem findall_nonempty_iff (text : string) :
  findall text <> [] <-> has_match text.
Proof.
  split.
  - intros Hne. apply has_match_b_sound.
    destruct (has_match_b text) eqn:E; [reflexivity |].
    exfalso. apply Hne. apply findall_from_no_match. exact E.
  - intros Hm. apply has_match_b_findall. apply has_match_b_complete.
    exact Hm.
Qed.

(** ** The prompts under the bracket scan *)

Section PromptRoundTrip.
Variable Props : Type.
Variable json_dumps : Props -> string.

Lemma node_line_shape (node : Node Props) :
  node_line json_dumps node
  = String "["%char
      (String.append (node_token json_dumps node) (String "]"%char NL)).
Proof. unfold node_line, node_token. rewrite !append_assoc. reflexivity. Qed.

Lemma relationship_line_shape (relation : Relationship Props) :
  relationship_line json_dumps relation
  = String "["%char
      (String.append (relationship_token json_dumps relation)
                     (String "]"%char NL)).
Proof.
  unfold relationship_line, relationship_token. rewrite !append_assoc.
  reflexivity.
Qed.

Lemma node_token_safe (node : Node Props) :
  node_safe json_dumps node = true ->
  token_safe (node_token json_dumps node) = true.
Proof.
  unfold node_safe, node_token. intros H.
  apply andb_true_iff in H. destruct H as [H Hj].
  apply andb_true_iff in H. destruct H as [Hn Hl].
  rewrite !token_safe_append, Hn, Hl, Hj. reflexivity.
Qed.

Lemma relationship_token_safe (relation : Relationship Props) :
  relationship_safe json_dumps relation = true ->
  token_safe (relationship_token json_dumps relation) = true.
Proof.
  unfold relationship_safe, relationship_token. intros H.
  apply andb_true_iff in H. destruct H as [H Hj].
  apply andb_true_iff in H. destruct H as [H He].
  apply andb_true_iff in H. destruct H as [Hs Ht].
  rewrite !token_safe_append, Hs, Ht, He, Hj. reflexivity.
Qed.

Lemma lines_of_tokens {X : Type} (line token : X -> string) (xs : list X) :
  (forall x, line x
             = String "["%char (String.append (token x) (String "]"%char NL))) ->
  map line xs
  = map (fun tok => String "["%char (String.append tok (String "]"%char NL)))
        (map token xs).
Proof.
  intros Hshape. rewrite map_map. apply map_ext. exact Hshape.
Qed.

(** X3. The text sent for a group reads back under the bracket scan as
    one token per node, in order, the token of a node being its line
    without the brackets, when no name, label or JSON text of the group
    holds a closing bracket or a newline. *)
Theorem group_text_round_trip (nodes_in_group : list (Node Props)) :
  Forall (fun node => node_safe json_dumps node = true) nodes_in_group ->
  findall (group_text json_dumps nodes_in_group)
  = map (node_token json_dumps) nodes_in_group.
Proof.
  intros Hsafe. unfold group_text.
  rewrite (lines_of_tokens _ _ _ node_line_shape).
  rewrite <- (append_empty_r (join_strings _)).
  rewrite findall_bracketed_lines.
  - apply app_nil_r.
  - apply List.Forall_forall. intros tok Hin. apply in_map_iff in Hin.
    destruct Hin as (node & <- & Hnode). apply node_token_safe.
    rewrite List.Forall_forall in Hsafe. exact (Hsafe node Hnode).
Qed.

(** X4. The user message of the validation request reads back under the
    bracket scan as one token per input relationship, in order: the
    template of [generate_prompt], the two headers and the valid names add
    no token, when no field of a relationship holds a closing bracket or a
    newline and no valid name holds an opening bracket. *)
Theorem validation_prompt_round_trip (rels : list (Relationship Props))
                                     (valid : list (Node Props)) :
  Forall (fun relation => relationship_safe json_dumps relation = true) rels ->
  Forall (fun node => mem_char "["%char (name node) = false) valid ->
  findall (generate_prompt (relationships_text json_dumps rels valid))
  = map (relationship_token json_dumps) rels.
Proof.
  intros Hsafe Hvalid. unfold generate_prompt, relationships_text, findall.
  rewrite findall_no_open by reflexivity.
  rewrite findall_no_open by reflexivity.
  rewrite append_assoc. rewrite findall_no_open by reflexivity.
  rewrite append_assoc.
  rewrite (lines_of_tokens _ _ _ relationship_line_shape).
  change (findall_from 0
            (String.append
               (join_strings
                  (map (fun tok =>
                          String "["%char
                            (String.append tok (String "]"%char NL)))
                       (map (relationship_token json_dumps) rels)))
               (String.append
                  (String.append (String.append "Valid Nodes:" NL)
                                 (String.concat NL (map name valid))) NL)))
    with (findall
            (String.append
               (join_strings
                  (map (fun tok =>
                          String "["%char
                            (String.append tok (String "]"%char NL)))
                       (map (relationship_token json_dumps) rels)))
               (String.append
                  (String.append (String.append "Valid Nodes:" NL)
                                 (String.concat NL (map name valid))) NL))).
  rewrite findall_bracketed_lines.
  - unfold findall.
    rewrite <- (append_empty_r
                  (String.append
                     (String.append (String.append "Valid Nodes:" NL)
                                    (String.concat NL (map name valid))) NL)).
    rewrite findall_no_open; [apply app_nil_r |].
    assert (Hnames : mem_char "["%char (String.concat NL (map name valid))
                     = false).
    { apply mem_char_concat; [reflexivity |].
      apply List.Forall_forall. intros s Hin. apply in_map_iff in Hin.
      destruct Hin as (node & <- & Hnode).
      rewrite List.Forall_forall in Hvalid. exact (Hvalid node Hnode). }
    rewrite !mem_char_append, Hnames. reflexivity.
  - apply List.Forall_forall. intros tok Hin. apply in_map_iff in Hin.
    destruct Hin as (relation & <- & Hrel). apply relationship_token_safe.
    rewrite List.Forall_forall in Hsafe. exact (Hsafe relation Hrel).
Qed.

End PromptRoundTrip.

Lemma scan_close_before_newline (s : string) :
  scan_close (String.append s NL) = scan_close s.
Proof.
  induction s as [| c s IH]; [reflexivity |].
  rewrite append_cons. simpl. rewrite IH. reflexivity.
Qed.

Lemma findall_from_before_newline (s : string) :
  forall skip, findall_from skip (String.append s NL) = findall_from skip s.
Proof.
  induction s as [| c s IH]; intros skip.
  - destruct skip; reflexivity.
  - rewrite append_cons. simpl. rewrite scan_close_before_newline.
    destruct skip; [| apply IH].
    destruct (Ascii.eqb c "["%char); [| apply IH].
    destruct (scan_close s); [rewrite IH; reflexivity | apply IH].
Qed.

(** X10. The template of [generate_prompt] adds no token and hides none:
    the bracket scan reads the same tokens in the prompt as in the data
    it wraps. *)
Theorem generate_prompt_same_tokens (data : string) :
  findall (generate_prompt data) = findall data.
Proof.
  unfold generate_prompt, findall.
  rewrite findall_no_open by reflexivity.
  rewrite findall_no_open by reflexivity.
  apply findall_from_before_newline.
Qed.

(** ** The groups in order *)

Section GroupbyOrder.
Context {A : Type}.
Variable key : A -> string.

Lemma leb_neq_ltb (a b : string) :
  String.leb a b = true -> a <> b -> String.ltb a b = true.
Proof.
  intros Hle Hne. destruct (leb_cases a b Hle) as [E | E];
    [contradiction | exact E].
Qed.

Lemma groupby_keys_le (x : A) (l : list A) :
  Forall (le_key key x) l ->
  Forall (fun k => String.leb (key x) k = true) (map fst (groupby key l)).
Proof.
  intros Hx. apply List.Forall_forall. intros k Hin.
  apply in_map_iff in Hin. destruct Hin as ([k' g] & Hk & Hin).
  simpl in Hk. subst k'.
  destruct (groupby_group key _ _ _ Hin) as (Hne & Hall & Hincl).
  destruct g as [| a g]; [congruence |].
  apply Forall_inv in Hall. rewrite <- Hall.
  rewrite List.Forall_forall in Hx. apply Hx. apply Hincl. left. reflexivity.
Qed.

(** The keys of the groups of a sorted list go strictly up. *)
Lemma groupby_keys_ascending (l : list A) :
  StronglySorted (le_key key) l ->
  StronglySorted (fun a b => String.ltb a b = true)
                 (map fst (groupby key l)).
Proof.
  intros Hs.
  destruct (groupby_sorted key l Hs) as [Hnd _].
  induction Hs as [| x l Hs IH Hx]; [constructor |].
  pose proof (groupby_keys_le x l Hx) as Hle.
  destruct (groupby_sorted key l Hs) as [Hnd' _].
  specialize (IH Hnd'). simpl in *.
  destruct (groupby key l) as [| [k g] gs]; [repeat constructor |].
  destruct (String.eqb_spec (key x) k) as [E | E].
  - simpl in *. rewrite E. exact IH.
  - simpl in *. constructor; [exact IH |].
    apply List.NoDup_cons_iff in Hnd. destruct Hnd as [Hnotin _].
    apply List.Forall_forall. intros k' Hin.
    apply leb_neq_ltb.
    + rewrite List.Forall_forall in Hle. apply Hle. exact Hin.
    + intros Heq. apply Hnotin. rewrite Heq. exact Hin.
Qed.

Lemma StronglySorted_map_filter {B : Type} (R : B -> B -> Prop)
      (f : A -> B) (p : A -> bool) (l : list A) :
  StronglySorted R (map f l) -> StronglySorted R (map f (List.filter p l)).
Proof.
  induction l as [| x l IH]; intros Hs; [constructor |].
  simpl in Hs. apply StronglySorted_inv in Hs. destruct Hs as [Hs Hx].
  simpl. destruct (p x); [| exact (IH Hs)].
  simpl. constructor; [exact (IH Hs) |].
  apply List.Forall_forall. intros b Hin. apply in_map_iff in Hin.
  destruct Hin as (a & <- & Ha). apply List.filter_In in Ha.
  rewrite List.Forall_forall in Hx. apply Hx. apply in_map. apply Ha.
Qed.

(** Dropping whole groups is dropping their members, when the members of
    a group agree on being dropped. *)
Lemma concat_filter_groups (P : string * list A -> bool) (Q : A -> bool)
      (gs : list (string * list A)) :
  (forall group a, In group gs -> In a (snd group) -> Q a = P group) ->
  concat (map snd (List.filter P gs))
  = List.filter Q (concat (map snd gs)).
Proof.
  induction gs as [| group gs IH]; intros H; [reflexivity |].
  simpl. rewrite List.filter_app.
  rewrite <- IH by (intros g a Hg; apply H; right; exact Hg).
  assert (Hgroup : List.filter Q (snd group)
                   = if P group then snd group else []).
  { assert (Hall : forall a, In a (snd group) -> Q a = P group)
      by (intros a; apply H; left; reflexivity).
    destruct (P group).
    - clear H IH. induction (snd group) as [| a g IHg]; [reflexivity |].
      simpl. rewrite (Hall a (or_introl eq_refl)). f_equal.
      apply IHg. intros b Hb. apply Hall. right. exact Hb.
    - apply filter_none. exact Hall. }
  rewrite Hgroup. destruct (P group); reflexivity.
Qed.

Lemma groups_total_length (gs : list (string * list A))
                          (multi : string * list A -> bool) :
  (forall group, In group gs -> multi group = true -> 2 <= length (snd group)) ->
  2 * length (List.filter multi gs) <= length (concat (map snd gs)).
Proof.
  induction gs as [| group gs IH]; intros H; [simpl; lia |].
  simpl. rewrite length_app.
  assert (IH' : 2 * length (List.filter multi gs)
                <= length (concat (map snd gs)))
    by (apply IH; intros g Hg; apply H; right; exact Hg).
  destruct (multi group) eqn:E; simpl; [| lia].
  pose proof (H group (or_introl eq_refl) E). lia.
Qed.

End GroupbyOrder.

(** ** What [run] keeps, drops and sends *)

Section RunFurther.
Variable Props : Type.
Variable json_dumps : Props -> string.
Variable LLM : Type.
Variable chat : LLM -> list ChatMessage -> string * LLM.
Variable nconv : list string -> list (Node Props).
Variable rconv : list string -> list (Relationship Props).

Local Abbreviation merge_group' := (merge_group json_dumps chat nconv).
Local Abbreviation merge_groups' := (merge_groups json_dumps chat nconv).
Local Abbreviation run' := (run json_dumps chat nconv rconv).

(** The group of the label of an input node holds the input nodes of that
    label. *)
Lemma node_group_of_label (data : Fragment Props) (n : Node Props) :
  In n (nodes data) ->
  In (label n, List.filter (same_key label (label n)) (nodes data))
     (node_groups_of data).
Proof.
  intros Hn.
  assert (Hin : In n (concat (map snd (node_groups_of data)))).
  { unfold node_groups_of. rewrite groupby_concat.
    eapply Permutation_in; [apply sorted_Permutation | exact Hn]. }
  apply in_concat in Hin. destruct Hin as (g & Hg & Hng).
  apply in_map_iff in Hg. destruct Hg as ([k g'] & Hsnd & Hin).
  simpl in Hsnd. subst g'.
  destruct (groupby_group label _ _ _ Hin) as (_ & Hall & _).
  rewrite List.Forall_forall in Hall. rewrite (Hall n Hng).
  destruct (groupby_sorted label _ (sorted_StronglySorted label (nodes data)))
    as [_ Hgroups].
  rewrite <- sorted_stable. rewrite <- (Hgroups k g Hin). exact Hin.
Qed.

Lemma group_is_label_class (data : Fragment Props) (k : string)
                           (g : list (Node Props)) :
  In (k, g) (node_groups_of data) ->
  g = List.filter (same_key label k) (nodes data).
Proof.
  intros Hin.
  destruct (groupby_sorted label _ (sorted_StronglySorted label (nodes data)))
    as [_ Hgroups].
  rewrite <- sorted_stable. apply Hgroups. exact Hin.
Qed.

Lemma merge_group_extends (acc g : list (Node Props)) (w : World LLM) :
  exists more,
    fst (merge_group' acc g w) = acc ++ more /\ (length g = 1 -> more = g).
Proof.
  destruct (Nat.eq_dec (length g) 1) as [E | E].
  - exists g. rewrite merge_group_single by exact E. split; auto.
  - eexists. rewrite merge_group_multi by exact E. split; [reflexivity |].
    intros E'. contradiction.
Qed.

Lemma merge_groups_keeps (gs : list (string * list (Node Props))) :
  forall (acc : list (Node Props)) (w : World LLM),
    incl acc (fst (merge_groups' gs acc w)) /\
    (forall k g, In (k, g) gs -> length g = 1 ->
                 incl g (fst (merge_groups' gs acc w))).
Proof.
  induction gs as [| group gs IH]; intros acc w; simpl.
  - split; [intros a Ha; exact Ha | intros k g []].
  - unfold bind.
    destruct (merge_group_extends acc (snd group) w) as (more & Hfst & Hone).
    destruct (merge_group' acc (snd group) w) as [acc1 w1]. simpl in Hfst.
    subst acc1. destruct (IH (acc ++ more) w1) as [IHacc IHgs].
    split.
    + intros a Ha. apply IHacc. apply in_or_app. left. exact Ha.
    + intros k g [Heq | Hin] Hlen.
      * subst group. simpl in Hone. pose proof (Hone Hlen) as Hmore.
        subst more.
        intros a Ha. apply IHacc. apply in_or_app. right. exact Ha.
      * exact (IHgs k g Hin Hlen).
Qed.

(** X5. A node whose label no other input node has is in the output
    nodes as it is, whatever the language model and the converters
    answer. *)
Theorem unique_label_passes_through (data : Fragment Props) (w : World LLM)
                                    (n : Node Props) :
  In n (nodes data) ->
  unique_label (nodes data) n = true ->
  In n (nodes (fst (run' data w))).
Proof.
  intros Hn Hunique. unfold unique_label in Hunique.
  apply Nat.eqb_eq in Hunique.
  rewrite run_nodes.
  destruct (merge_groups_keeps (node_groups_of data) [] w) as [_ Hkeep].
  apply (Hkeep _ _ (node_group_of_label data n Hn) Hunique).
  apply List.filter_In. split; [exact Hn |].
  unfold same_key. apply String.eqb_refl.
Qed.

Lemma single_group_unique (data : Fragment Props)
                          (group : string * list (Node Props))
                          (n : Node Props) :
  In group (node_groups_of data) -> In n (snd group) ->
  unique_label (nodes data) n = negb (multi_member group).
Proof.
  destruct group as [k g]. simpl. intros Hin Hn.
  destruct (groupby_group label _ _ _ Hin) as (Hne & Hall & _).
  rewrite List.Forall_forall in Hall.
  unfold unique_label. rewrite (Hall n Hn).
  rewrite <- (group_is_label_class data k g Hin).
  unfold multi_member. simpl.
  destruct g as [| a [| b g]]; [congruence | reflexivity | reflexivity].
Qed.

Lemma merge_groups_no_match (gs : list (string * list (Node Props))) :
  (forall (l : LLM) (message : list ChatMessage),
      ~ has_match (fst (chat l message))) ->
  nconv [] = [] ->
  Forall (fun group => snd group <> []) gs ->
  forall (acc : list (Node Props)) (w : World LLM),
    fst (merge_groups' gs acc w)
    = acc ++ concat (map snd
                       (List.filter (fun group => negb (multi_member group))
                                    gs)).
Proof.
  intros Hno Hn. induction 1 as [| group gs Hne Hall IH]; intros acc w; simpl.
  - symmetry. apply app_nil_r.
  - unfold bind. rewrite (multi_member_length _ group Hne), negb_involutive.
    destruct (Nat.eqb (length (snd group)) 1) eqn:E.
    + apply Nat.eqb_eq in E. rewrite merge_group_single by exact E.
      rewrite IH. simpl. rewrite <- List.app_assoc. reflexivity.
    + apply Nat.eqb_neq in E. rewrite merge_group_multi by exact E.
      rewrite IH. cbn [fst]. unfold findall.
      rewrite (findall_from_no_match _ (no_match_b _ (Hno _ _))), Hn.
      rewrite app_nil_r. reflexivity.
Qed.

(** X6. When no answer of the language model holds a bracketed token (and
    the converters map no token to no record), the output keeps exactly
    the nodes whose label is unique, in label order: every node that
    shares its label with another one is dropped, and no relationship is
    returned. *)
Theorem no_match_answers_drop_groups (data : Fragment Props) (w : World LLM) :
  (forall (l : LLM) (message : list ChatMessage),
      ~ has_match (fst (chat l message))) ->
  nconv [] = [] ->
  rconv [] = [] ->
  nodes (fst (run' data w))
  = List.filter (unique_label (nodes data)) (sorted label (nodes data)) /\
  relationships (fst (run' data w)) = [].
Proof.
  intros Hno Hn Hr. split.
  - rewrite run_nodes.
    rewrite (merge_groups_no_match _ Hno Hn (node_groups_nonempty _ data)).
    simpl.
    rewrite (concat_filter_groups
               (fun group => negb (multi_member group))
               (unique_label (nodes data))).
    + unfold node_groups_of. rewrite groupby_concat. reflexivity.
    + intros group n Hg Hin. exact (single_group_unique data group n Hg Hin).
  - rewrite run_relationships.
    unfold rawRelationships_of, findall.
    rewrite (findall_from_no_match _ (no_match_b _ (Hno _ _))). exact Hr.
Qed.

(** X7. The merge requests of a call are sent in strictly ascending order
    of the label of their group, one per label, and the validation request
    comes last. *)
Theorem merge_requests_ascending (data : Fragment Props) (w : World LLM) :
  let merged := List.filter multi_member (node_groups_of data) in
  issued w (snd (run' data w))
  = map (fun group => merge_request json_dumps (snd group)) merged
    ++ [validation_request json_dumps (relationships data)
                           (nodes (fst (run' data w)))] /\
  StronglySorted (fun a b => String.ltb a b = true) (map fst merged) /\
  Forall (fun group =>
            snd group = List.filter (same_key label (fst group)) (nodes data))
         merged.
Proof.
  cbv zeta. split; [apply run_issued |]. split.
  - apply StronglySorted_map_filter. unfold node_groups_of.
    apply groupby_keys_ascending. apply sorted_StronglySorted.
  - apply List.Forall_forall. intros [k g] Hin. simpl.
    apply List.filter_In in Hin. destruct Hin as [Hin _].
    exact (group_is_label_class data k g Hin).
Qed.

(** X8. A call sends at most one merge request for every two input
    nodes: with [n] input nodes it sends at most [n / 2 + 1] requests. *)
Theorem requests_bound (data : Fragment Props) (w : World LLM) :
  2 * length (requests_for MergeNodes (issued w (snd (run' data w))))
  <= length (nodes data) /\
  length (issued w (snd (run' data w))) <= length (nodes data) / 2 + 1.
Proof.
  assert (Hbound : 2 * length (List.filter multi_member (node_groups_of data))
                   <= length (nodes data)).
  { rewrite (Permutation_length (sorted_Permutation label (nodes data))).
    rewrite <- (groupby_concat label (sorted label (nodes data))).
    apply groups_total_length. intros group _ Hmulti.
    unfold multi_member in Hmulti. apply Nat.ltb_lt in Hmulti. lia. }
  split.
  - rewrite run_requests_for_merge, length_map. exact Hbound.
  - rewrite run_issued, length_app, length_map. cbn [length].
    assert (length (List.filter multi_member (node_groups_of data))
            <= length (nodes data) / 2)
      by (apply Nat.div_le_lower_bound; lia).
    lia.
Qed.

End RunFurther.

(** ** The objects of the output *)

Section StoreFurther.
Variable Props : Type.
Variable json_dumps : Props -> string.
Variable LLM : Type.
Variable chat : LLM -> list ChatMessage -> string * LLM.
Variable nconv : list string -> list (Node Props).
Variable rconv : list string -> list (Relationship Props).

Implicit Types hw : HWorld Props LLM.
Implicit Types h : gmap loc (obj Props).

Ltac hnext E := rewrite (hbind_Some _ _ _ _ _ _ _ E); cbv beta.

Lemma hmap_label_key_fst (ls : list loc) :
  forall hw (keyed : list (loc * string)) hw1,
    hmap label_key ls hw = Some (keyed, hw1) -> map fst keyed = ls.
Proof.
  induction ls as [| l ls IH]; intros hw keyed hw1 H; simpl in H.
  - inversion H. reflexivity.
  - unfold hbind in H.
    destruct (label_key l hw) as [[kl hwa] |] eqn:E; [| discriminate].
    destruct (hmap label_key ls hwa) as [[ks hwb] |] eqn:Es; [| discriminate].
    inversion H; subst. simpl. f_equal; [| eapply IH; exact Es].
    unfold label_key, hbind, load in E.
    destruct (heap hw !! l) as [[nm lb pl | | | |] |]; try discriminate.
    inversion E. reflexivity.
Qed.

(** A group of one node: its location goes into the list at [new_nodes]. *)
Lemma merge_group_heap_single (new_nodes : loc) hw (glocs items : list loc) :
  length glocs = 1 ->
  heap hw !! new_nodes = Some (OList items) ->
  exists hw',
    merge_group_heap json_dumps chat nconv new_nodes glocs hw = Some (tt, hw') /\
    heap hw' !! new_nodes = Some (OList (items ++ glocs)).
Proof.
  intros Hlen Hnew.
  set (l1 := fresh (dom (heap hw))).
  set (hw1 := {| heap := <[l1 := OList glocs]> (heap hw); world := world hw |}).
  assert (Hl1 : heap hw !! l1 = None) by (apply not_elem_of_dom, is_fresh).
  assert (Hsub1 : heap hw ⊆ heap hw1) by (apply insert_subseteq; exact Hl1).
  assert (Halloc : alloc (OList glocs) hw = Some (l1, hw1)) by reflexivity.
  assert (Hget1 : get_list l1 hw1 = Some (glocs, hw1))
    by (apply get_list_spec; apply lookup_insert_eq).
  assert (Hnew1 : heap hw1 !! new_nodes = Some (OList items))
    by (eapply lookup_weaken; eassumption).
  unfold merge_group_heap. hnext Halloc. hnext Hget1.
  rewrite Hlen. cbn [Nat.eqb].
  rewrite (list_extend_spec _ _ hw1 new_nodes items glocs Hnew1).
  eexists. split; [reflexivity |]. cbn [heap]. apply lookup_insert_eq.
Qed.

Lemma merge_loop_singles (new_nodes : loc)
      (groups : list (string * list (loc * string))) :
  Forall (fun group => length (snd group) = 1) groups ->
  forall hw (items : list loc),
    heap hw !! new_nodes = Some (OList items) ->
    exists hw',
      hiter (fun group =>
               merge_group_heap json_dumps chat nconv new_nodes
                                (map fst (snd group)))
            groups hw = Some (tt, hw') /\
      heap hw' !! new_nodes
      = Some (OList (items ++ map fst (concat (map snd groups)))).
Proof.
  induction 1 as [| group groups Hone Hall IH]; intros hw items Hnew.
  - exists hw. split; [reflexivity |]. simpl. rewrite app_nil_r. exact Hnew.
  - assert (Hlen : length (map fst (snd group)) = 1)
      by (rewrite length_map; exact Hone).
    destruct (merge_group_heap_single new_nodes hw _ items Hlen Hnew)
      as (hw1 & Hrun1 & Hnew1).
    destruct (IH hw1 _ Hnew1) as (hw2 & Hrun2 & Hnew2).
    exists hw2. split.
    + simpl. hnext Hrun1. exact Hrun2.
    + rewrite Hnew2. simpl. rewrite map_app, List.app_assoc. reflexivity.
Qed.

(** The call, step by step: the list made for [new_nodes], the state
    after the loop over the groups, and the mapping returned, which holds
    the list the loop has built. *)
Lemma run_heap_detail (data nl rl : loc) hw (nlocs rlocs : list loc)
      (ns : list (Node Props)) (rs : list (Relationship Props))
      (keyed : list (loc * string)) :
  heap hw !! data = Some (OData nl rl) ->
  heap hw !! nl = Some (OList nlocs) ->
  heap hw !! rl = Some (OList rlocs) ->
  Forall2 (fun l n => read_node (heap hw) l = Some n) nlocs ns ->
  Forall2 (fun l r => read_relationship (heap hw) l = Some r) rlocs rs ->
  hmap label_key nlocs hw = Some (keyed, hw) ->
  Forall2 (fun kl n => read_node (heap hw) (fst kl) = Some n
                       /\ snd kl = label n) keyed ns ->
  exists (new_nodes new_relationships : loc) hwr hw4 (items4 : list loc)
         (result : loc) hw',
    heap hw !! new_nodes = None /\
    heap hwr !! new_nodes = Some (OList []) /\
    hiter (fun group =>
             merge_group_heap json_dumps chat nconv new_nodes
                              (map fst (snd group)))
          (groupby snd (sorted snd keyed)) hwr = Some (tt, hw4) /\
    heap hw4 !! new_nodes = Some (OList items4) /\
    run_heap json_dumps chat nconv rconv data hw = Some (result, hw') /\
    heap hw' !! result = Some (OData new_nodes new_relationships) /\
    heap hw' !! new_nodes = Some (OList items4).
Proof.
  intros Edata Enl Erl Ens Ers Hkeyed Hrel.
  assert (Hd : get_data data hw = Some ((nl, rl), hw)).
  { unfold get_data. hnext (load_spec _ _ _ _ _ Edata). reflexivity. }
  set (R := fun (kl : loc * string) (n : Node Props) =>
              read_node (heap hw) (fst kl) = Some n /\ snd kl = label n).
  assert (Hagree : forall kl n, R kl n -> snd kl = label n)
    by (intros kl n [_ H]; exact H).
  pose proof (sorted_Forall2 R snd label Hagree _ _ Hrel) as Hsorted.
  pose proof (groupby_Forall2 R snd label Hagree _ _ Hsorted) as Hgroups.
  unfold run_heap. cbv zeta.
  hnext Hd. cbn [fst snd]. hnext (get_list_spec _ _ _ _ _ Enl). hnext Hkeyed.
  set (la := fresh (dom (heap hw))).
  set (hwa := {| heap := <[la := OList (map fst (sorted snd keyed))]> (heap hw);
                 world := world hw |}).
  set (ln := fresh (dom (heap hwa))).
  set (hwn := {| heap := <[ln := OList []]> (heap hwa); world := world hw |}).
  set (lr := fresh (dom (heap hwn))).
  set (hwr := {| heap := <[lr := OList []]> (heap hwn); world := world hw |}).
  assert (Hla : heap hw !! la = None) by (apply not_elem_of_dom, is_fresh).
  assert (Hln : heap hwa !! ln = None) by (apply not_elem_of_dom, is_fresh).
  assert (Hlr : heap hwn !! lr = None) by (apply not_elem_of_dom, is_fresh).
  assert (Hsuba : heap hw ⊆ heap hwa) by (apply insert_subseteq; exact Hla).
  assert (Hsubn : heap hwa ⊆ heap hwn) by (apply insert_subseteq; exact Hln).
  assert (Hsubr : heap hwn ⊆ heap hwr) by (apply insert_subseteq; exact Hlr).
  assert (Hsub2 : heap hw ⊆ heap hwn) by (etrans; [exact Hsuba | exact Hsubn]).
  assert (Hsub3 : heap hw ⊆ heap hwr) by (etrans; [exact Hsub2 | exact Hsubr]).
  assert (Hln0 : heap hw !! ln = None)
    by (eapply lookup_weaken_None; [exact Hln | exact Hsuba]).
  assert (Hne : lr <> ln).
  { intros E. rewrite E in Hlr. unfold hwn in Hlr. cbn [heap] in Hlr.
    rewrite lookup_insert_eq in Hlr. discriminate. }
  assert (Hlnr : heap hwr !! ln = Some (OList [])).
  { unfold hwr, hwn. cbn [heap]. rewrite lookup_insert_ne by exact Hne.
    apply lookup_insert_eq. }
  assert (Hlrr : heap hwr !! lr = Some (OList [])).
  { unfold hwr. cbn [heap]. apply lookup_insert_eq. }
  assert (Ha : alloc (OList (map fst (sorted snd keyed))) hw = Some (la, hwa))
    by reflexivity.
  assert (Hn : alloc (OList []) hwa = Some (ln, hwn)) by reflexivity.
  assert (Hr : alloc (OList []) hwn = Some (lr, hwr)) by reflexivity.
  hnext Ha. hnext Hn. hnext Hr.
  assert (Hgroups' :
            Forall2 (fun gh gp =>
                       Forall2 (fun l n => read_node (heap hwr) l = Some n)
                               (map fst (snd gh)) (snd gp))
                    (groupby snd (sorted snd keyed))
                    (groupby label (sorted label ns))).
  { eapply Forall2_weaken; [| exact Hgroups]. intros gh gp [_ Hg].
    apply Forall2_map_l. eapply Forall2_weaken; [| exact Hg].
    intros kl n [Hkl _]. eapply read_node_mono; eassumption. }
  assert (HW : ln ∈ ({[ln]} : gset loc)) by set_solver.
  destruct (merge_loop_spec _ json_dumps _ chat nconv {[ln]} ln _ HW _ hwr
              [] [] Hlnr (List.Forall2_nil _) Hgroups')
    as (hw4 & items4 & Hloop & Hgr4 & Hln4 & Hacc4 & Hw4).
  hnext Hloop.
  assert (Hgr04 : grows {[ln]} (heap hw) (heap hw4)).
  { eapply grows_trans; [apply subseteq_grows; exact Hsub3 | exact Hgr4]. }
  assert (Hrl4 : heap hw4 !! rl = Some (OList rlocs)).
  { eapply grows_keep; [exact Hgr04 | | exact Erl].
    intros Hin. apply elem_of_singleton in Hin. subst rl. congruence. }
  assert (Hlr4 : heap hw4 !! lr = Some (OList [])).
  { eapply grows_keep; [exact Hgr4 | | exact Hlrr].
    intros Hin. apply elem_of_singleton in Hin. contradiction. }
  assert (Hrels : Forall2 (fun l x => get_relationship l hw4 = Some (x, hw4))
                          rlocs rs).
  { eapply Forall2_weaken; [| exact Ers]. intros l r Hl.
    apply get_relationship_spec. eapply read_relationship_grows; eassumption. }
  assert (Hnames : Forall2 (fun l x => get_node l hw4 = Some (x, hw4))
                           items4
                           (fst (merge_groups json_dumps chat nconv
                                   (groupby label (sorted label ns)) []
                                   (world hwr)))).
  { eapply Forall2_weaken; [| exact Hacc4]. intros l n Hl.
    apply get_node_spec. exact Hl. }
  hnext (get_list_spec _ _ _ _ _ Hrl4).
  hnext (hmap_read _ _ get_relationship (relationship_line json_dumps)
                   hw4 rlocs rs Hrels).
  hnext (get_list_spec _ _ _ _ _ Hln4).
  hnext (hmap_read _ _ get_node name hw4 items4 _ Hnames).
  match goal with
  | |- context [hchat chat ValidateRelationships ?message] =>
      hnext (hchat_spec _ _ chat ValidateRelationships message hw4)
  end.
  set (hw5 := Build_HWorld _ _).
  match goal with
  | |- context [new_list new_relationship ?xs] =>
      destruct (new_list_spec _ _ new_relationship read_relationship
                  (new_relationship_spec _ _) (read_relationship_mono _)
                  xs hw5)
        as (l6 & ls6 & hw6 & Hnl6 & Hsub6 & Hw6 & Hl6 & Hls6)
  end.
  hnext Hnl6. hnext (get_list_spec _ _ _ _ _ Hl6).
  assert (Hlr6 : heap hw6 !! lr = Some (OList []))
    by (eapply lookup_weaken; [exact Hlr4 | exact Hsub6]).
  assert (Hln6 : heap hw6 !! ln = Some (OList items4))
    by (eapply lookup_weaken; [exact Hln4 | exact Hsub6]).
  hnext (list_extend_spec _ _ hw6 lr [] ls6 Hlr6).
  set (hw7 := Build_HWorld _ _).
  unfold alloc.
  set (l7 := fresh (dom (heap hw7))).
  assert (Hl7 : heap hw7 !! l7 = None) by (apply not_elem_of_dom, is_fresh).
  assert (Hn7 : l7 <> ln).
  { intros E. rewrite E in Hl7. unfold hw7 in Hl7. cbn [heap] in Hl7.
    rewrite lookup_insert_ne in Hl7 by exact Hne. congruence. }
  exists ln, lr, hwr, hw4, items4. eexists _, _.
  split; [exact Hln0 |]. split; [exact Hlnr |]. split; [exact Hloop |].
  split; [exact Hln4 |]. split; [reflexivity |]. cbn [heap].
  split; [apply lookup_insert_eq |].
  rewrite (lookup_insert_ne _ l7 ln) by exact Hn7.
  unfold hw7. cbn [heap].
  rewrite (lookup_insert_ne _ lr ln) by exact Hne. exact Hln6.
Qed.

(** X9. The output shares its node objects with the input.  On a store
    where [data] holds a fragment whose labels are pairwise distinct, the
    mapping returned has a node list that is a new object and holds the
    locations of the input node list, reordered: the very node dicts of
    the input, not copies. *)
Theorem distinct_labels_share_nodes (data : loc) hw (frag : Fragment Props) :
  read_fragment (heap hw) data = Some frag ->
  List.NoDup (map label (nodes frag)) ->
  exists (result : loc) hw' (input_nodes input_relationships : loc)
         (input_locs : list loc) (new_nodes new_relationships : loc)
         (output_locs : list loc),
    run_heap json_dumps chat nconv rconv data hw = Some (result, hw') /\
    heap hw !! data = Some (OData input_nodes input_relationships) /\
    heap hw !! input_nodes = Some (OList input_locs) /\
    heap hw' !! result = Some (OData new_nodes new_relationships) /\
    heap hw !! new_nodes = None /\
    heap hw' !! new_nodes = Some (OList output_locs) /\
    Permutation input_locs output_locs.
Proof.
  intros Hfrag Hnd. unfold read_fragment in Hfrag.
  destruct (heap hw !! data) as [[| | | | nl rl] |] eqn:Edata;
    try discriminate.
  destruct (heap hw !! nl) as [[| | | nlocs |] |] eqn:Enl; try discriminate.
  destruct (heap hw !! rl) as [[| | | rlocs |] |] eqn:Erl; try discriminate.
  destruct (option_map_list (read_node (heap hw)) nlocs) as [ns |] eqn:Ens;
    try discriminate.
  destruct (option_map_list (read_relationship (heap hw)) rlocs)
    as [rs |] eqn:Ers; try discriminate.
  inversion Hfrag; subst frag. clear Hfrag. cbn [nodes] in Hnd.
  apply option_map_list_Forall2 in Ens. apply option_map_list_Forall2 in Ers.
  destruct (hmap_label_key _ _ hw nlocs ns Ens) as (keyed & Hkeyed & Hrel).
  destruct (run_heap_detail data nl rl hw nlocs rlocs ns rs keyed
              Edata Enl Erl Ens Ers Hkeyed Hrel)
    as (ln & lr & hwr & hw4 & items4 & result & hw'
        & Hln0 & Hlnr & Hloop & Hln4 & Hrun & Hres & Hout).
  (* every group is a group of one *)
  set (R := fun (kl : loc * string) (n : Node Props) =>
              read_node (heap hw) (fst kl) = Some n /\ snd kl = label n).
  assert (Hagree : forall kl n, R kl n -> snd kl = label n)
    by (intros kl n [_ H]; exact H).
  pose proof (groupby_Forall2 R snd label Hagree _ _
                (sorted_Forall2 R snd label Hagree _ _ Hrel)) as Hgroups.
  pose proof (distinct_labels_singletons _
                {| nodes := ns; relationships := rs |} Hnd) as Hsingles.
  unfold node_groups_of in Hsingles. cbn [nodes] in Hsingles.
  assert (Hones : Forall (fun group : string * list (loc * string) =>
                            length (snd group) = 1)
                         (groupby snd (sorted snd keyed))).
  { clear - Hgroups Hsingles.
    induction Hgroups as [| gh gp ghs gps [_ Hg] Hrest IH]; [constructor |].
    apply Forall_inv in Hsingles as Hone.
    apply Forall_inv_tail in Hsingles.
    constructor; [| exact (IH Hsingles)].
    rewrite (Forall2_length _ _ _ Hg). exact Hone. }
  destruct (merge_loop_singles ln _ Hones hwr [] Hlnr)
    as (hw4' & Hloop' & Hln4').
  rewrite Hloop in Hloop'. inversion Hloop'; subst hw4'.
  rewrite Hln4 in Hln4'. inversion Hln4'; subst items4.
  exists result, hw', nl, rl, nlocs, ln, lr. eexists.
  split; [exact Hrun |]. split; [reflexivity |]. split; [exact Enl |].
  split; [exact Hres |]. split; [exact Hln0 |]. split; [exact Hout |].
  rewrite groupby_concat. simpl.
  rewrite <- (hmap_label_key_fst _ _ _ _ Hkeyed).
  apply Permutation_map. apply sorted_Permutation.
Qed.

End StoreFurther.

(** ** The further properties on the examples *)

(** X1 on a text with one bracketed token. *)
Lemma findall_tokens_witness :
  In "a" (findall "x [a] y") /\
  (mem_char "]"%char "a" = false /\ mem_char newline "a" = false /\
   exists pre post,
     "x [a] y"
     = String.append pre
         (String.append "[" (String.append "a" (String.append "]" post)))).
Proof.
  assert (Hin : In "a" (findall "x [a] y")) by (left; reflexivity).
  split; [exact Hin |].
  exact (findall_tokens "x [a] y" "a" Hin).
Defined.

(** X3 on the two persons. *)
Lemma group_text_round_trip_witness :
  Forall (fun node => node_safe Example.json_dumps node = true)
         [Example.alice; Example.alice2] /\
  findall (group_text Example.json_dumps [Example.alice; Example.alice2])
  = map (node_token Example.json_dumps) [Example.alice; Example.alice2].
Proof.
  assert (Hsafe : Forall (fun node => node_safe Example.json_dumps node = true)
                         [Example.alice; Example.alice2])
    by (repeat constructor).
  split; [exact Hsafe |].
  exact (group_text_round_trip Example.Props Example.json_dumps
           [Example.alice; Example.alice2] Hsafe).
Defined.

(** X4 on one relationship and two valid names. *)
Lemma validation_prompt_round_trip_witness :
  Forall (fun relation => relationship_safe Example.json_dumps relation = true)
         [Example.works_at] /\
  Forall (fun node : Node Example.Props =>
            mem_char "["%char (name node) = false)
         [Example.acme; Example.alice] /\
  findall (generate_prompt
             (relationships_text Example.json_dumps [Example.works_at]
                                 [Example.acme; Example.alice]))
  = map (relationship_token Example.json_dumps) [Example.works_at].
Proof.
  assert (Hsafe : Forall (fun relation =>
                            relationship_safe Example.json_dumps relation
                            = true) [Example.works_at])
    by (repeat constructor).
  assert (Hvalid : Forall (fun node : Node Example.Props =>
                             mem_char "["%char (name node) = false)
                          [Example.acme; Example.alice])
    by (repeat constructor).
  split; [exact Hsafe |]. split; [exact Hvalid |].
  exact (validation_prompt_round_trip Example.Props Example.json_dumps
           [Example.works_at] [Example.acme; Example.alice] Hsafe Hvalid).
Defined.

(** X5 on two persons and an organization: the organization passes. *)
Lemma unique_label_passes_through_witness :
  In Example.acme (nodes Example.three_nodes) /\
  unique_label (nodes Example.three_nodes) Example.acme = true /\
  In Example.acme
     (nodes (fst (Example.run Example.three_nodes
                              (Example.start_world ["[alice]"])))).
Proof.
  assert (Hin : In Example.acme (nodes Example.three_nodes))
    by (right; left; reflexivity).
  assert (Hunique : unique_label (nodes Example.three_nodes) Example.acme
                    = true) by reflexivity.
  split; [exact Hin |]. split; [exact Hunique |].
  exact (unique_label_passes_through
           Example.Props Example.json_dumps Example.LLM Example.chat
           Example.nodes_of_tokens Example.relationships_of_tokens
           Example.three_nodes (Example.start_world ["[alice]"])
           Example.acme Hin Hunique).
Defined.

(** X6 with a language model that always refuses. *)
Lemma no_match_answers_drop_groups_witness :
  (forall (l : nat) (message : list ChatMessage),
      ~ has_match (fst (Example.refusing_chat l message))) /\
  Example.nodes_of_tokens [] = [] /\
  Example.relationships_of_tokens [] = [] /\
  nodes (fst (run Example.json_dumps Example.refusing_chat
                  Example.nodes_of_tokens Example.relationships_of_tokens
                  Example.three_nodes {| llm := 0; sent := [] |}))
  = List.filter (unique_label (nodes Example.three_nodes))
                (sorted label (nodes Example.three_nodes)) /\
  relationships (fst (run Example.json_dumps Example.refusing_chat
                          Example.nodes_of_tokens
                          Example.relationships_of_tokens
                          Example.three_nodes {| llm := 0; sent := [] |}))
  = [].
Proof.
  assert (Hno : forall (l : nat) (message : list ChatMessage),
             ~ has_match (fst (Example.refusing_chat l message))).
  { intros l message H. apply has_match_b_complete in H.
    vm_compute in H. discriminate H. }
  split; [exact Hno |]. split; [reflexivity |]. split; [reflexivity |].
  exact (no_match_answers_drop_groups
           Example.Props Example.json_dumps nat Example.refusing_chat
           Example.nodes_of_tokens Example.relationships_of_tokens
           Example.three_nodes {| llm := 0; sent := [] |}
           Hno eq_refl eq_refl).
Defined.

(** X9 on the store that holds a person and an organization. *)
Lemma distinct_labels_share_nodes_witness :
  read_fragment (heap (Example.distinct_labels_store [])) 9%positive
  = Some Example.distinct_labels /\
  List.NoDup (map label (nodes Example.distinct_labels)) /\
  exists (result : loc) (hw' : HWorld Example.Props Example.LLM)
         (input_nodes input_relationships : loc) (input_locs : list loc)
         (new_nodes new_relationships : loc) (output_locs : list loc),
    run_heap Example.json_dumps Example.chat Example.nodes_of_tokens
             Example.relationships_of_tokens 9%positive
             (Example.distinct_labels_store [])
    = Some (result, hw') /\
    heap (Example.distinct_labels_store []) !! 9%positive
    = Some (OData input_nodes input_relationships) /\
    heap (Example.distinct_labels_store []) !! input_nodes
    = Some (OList input_locs) /\
    heap hw' !! result = Some (OData new_nodes new_relationships) /\
    heap (Example.distinct_labels_store []) !! new_nodes = None /\
    heap hw' !! new_nodes = Some (OList output_locs) /\
    Permutation input_locs output_locs.
Proof.
  assert (Hread : read_fragment (heap (Example.distinct_labels_store []))
                                9%positive
                  = Some Example.distinct_labels)
    by (vm_compute; reflexivity).
  assert (Hnd : List.NoDup (map label (nodes Example.distinct_labels))).
  { simpl. constructor.
    - simpl. intros [H | []]. discriminate H.
    - constructor; [intros [] | constructor]. }
  split; [exact Hread |]. split; [exact Hnd |].
  exact (distinct_labels_share_nodes
           Example.Props Example.json_dumps Example.LLM Example.chat
           Example.nodes_of_tokens Example.relationships_of_tokens
           9%positive (Example.distinct_labels_store [])
           Example.distinct_labels Hread Hnd).
Defined.
